(** * The jdkdb metadata worker: routing, direct resolution and diagnostics

    A shallow embedding of [src/index.ts], the Cloudflare worker that maps
    [.../metadata/<rest>] onto the jbangdev GitHub pages site and, for
    [?direct] requests on [.json] documents, redirects to the first archive
    listed in the document.

    Conventions of the embedding.
    - A JavaScript string is a [string]: the sequence of its UTF-8 bytes.
      Every string the worker inspects (path names, query names, the two
      archive types) is compared against ASCII literals only.
    - A value produced by [JSON.parse] is a [json] tree; an arbitrary object
      graph (sharing, cycles) is a [heap] of cells addressed by [loc].
    - A [URL] object is the record of its already parsed components. *)

From Stdlib Require Import ZArith List Bool Ascii String Lia.
From Stdlib Require Import DecimalString.
From stdpp Require Import base option list gmap strings.

Local Open Scope string_scope.
Local Open Scope list_scope.

(** ** Strings *)

Module Str.

(** [String.prototype.toLowerCase] on one byte.  Only [A]..[Z] are mapped;
    no character outside ASCII lowercases to an ASCII letter occurring in
    ["tar.gz"], ["zip"] or [".json"], so comparisons against these literals
    are decided by the ASCII part alone. *)
Definition lower_ascii (c : ascii) : ascii :=
  let n := nat_of_ascii c in
  if (65 <=? n)%nat && (n <=? 90)%nat then ascii_of_nat (n + 32) else c.

Fixpoint toLowerCase (s : string) : string :=
  match s with
  | EmptyString => EmptyString
  | String c r => String (lower_ascii c) (toLowerCase r)
  end.

(** [s.slice(n)] for [0 <= n]: the suffix from position [n] on. *)
Fixpoint slice (n : nat) (s : string) : string :=
  match n, s with
  | O, _ => s
  | S n', String _ r => slice n' r
  | S _, EmptyString => EmptyString
  end.

(** [s.startsWith(p)] *)
Fixpoint startsWith (p s : string) : bool :=
  match p, s with
  | EmptyString, _ => true
  | String a p', String b s' => if Ascii.eqb a b then startsWith p' s' else false
  | String _ _, EmptyString => false
  end.

(** [s.indexOf(m)]: the least position at which [m] occurs, [None] for
    JavaScript's [-1]. *)
Fixpoint indexOf (m s : string) : option nat :=
  if startsWith m s then Some O
  else match s with
       | EmptyString => None
       | String _ r => option_map S (indexOf m r)
       end.

(** [s.endsWith(p)] *)
Definition endsWith (p s : string) : bool :=
  (String.length p <=? String.length s)%nat
  && String.eqb (slice (String.length s - String.length p) s) p.

(** Decimal rendering of an array index, as template literals print it. *)
Definition of_nat (n : nat) : string := NilEmpty.string_of_uint (Nat.to_uint n).

End Str.

(** ** Loops with early exit

    Both [for] loops of [walk] return the first non-null result of their
    body. *)

Section Loops.
Context {A B : Type}.

Section Indexed.
Variable body : nat -> A -> option B.

(** [for (let i = i0; i < a.length; i++) { const hit = body(i, a[i]); if (hit) return hit; } return null] *)
Fixpoint for_index (i : nat) (l : list A) : option B :=
  match l with
  | [] => None
  | x :: r =>
      match body i x with
      | Some hit => Some hit
      | None => for_index (S i) r
      end
  end.
End Indexed.

Section Each.
Variable body : A -> option B.

(** [for (const e of l) { const hit = body(e); if (hit) return hit; } return null] *)
Fixpoint for_of (l : list A) : option B :=
  match l with
  | [] => None
  | x :: r =>
      match body x with
      | Some hit => Some hit
      | None => for_of r
      end
  end.
End Each.
End Loops.

(** ** JSON documents *)

(** The result of [JSON.parse].  A number is carried as its canonical
    rendering; objects list their entries in [Object.entries] order and,
    as [JSON.parse] guarantees, without repeated keys. *)
Unset Elimination Schemes.
Inductive json : Type :=
| JNull
| JBool (b : bool)
| JNum (lit : string)
| JStr (s : string)
| JArr (items : list json)
| JObj (props : list (string * json)).
Set Elimination Schemes.

Record DirectMatch := mkDirectMatch {
  url : string;
  fileType : string;
  jsonPath : string;
}.

(** [obj[k]] on the own properties of a parsed object. *)
Fixpoint get_prop {V : Type} (k : string) (props : list (string * V)) : option V :=
  match props with
  | [] => None
  | (k', v) :: r => if String.eqb k k' then Some v else get_prop k r
  end.

(** [typeof obj[k] === "string" ? obj[k] : null] *)
Definition string_prop (k : string) (props : list (string * json)) : option string :=
  match get_prop k props with
  | Some (JStr s) => Some s
  | _ => None
  end.

(** Truthiness of a [string | null]: [null] and [""] are falsy. *)
Definition truthy (o : option string) : bool :=
  match o with
  | Some s => negb (String.eqb s "")
  | None => false
  end.

Definition targetTypes : list string := ["tar.gz"; "zip"].

(** [targetTypes.has(t)] *)
Definition targetTypes_has (t : string) : bool :=
  existsb (String.eqb t) targetTypes.

(** [`${path}[${i}]`] *)
Definition index_path (path : string) (i : nat) : string :=
  path +:+ "[" +:+ Str.of_nat i +:+ "]".

(** [path ? `${path}.${k}` : k] *)
Definition key_path (path k : string) : string :=
  if String.eqb path "" then k else path +:+ "." +:+ k.

(** Lines 49-54, given the two property reads
    [typeof obj.file_type === "string" ? obj.file_type : null] and
    [typeof obj.url === "string" ? obj.url : null]. *)
Definition test_entry (file_type url : option string) (path : string) : option DirectMatch :=
  let fileType := option_map Str.toLowerCase file_type in
  match fileType, url with
  | Some ft, Some u =>
      if truthy fileType && truthy url && targetTypes_has ft
      then Some {| url := u; fileType := ft; jsonPath := path |}
      else None
  | _, _ => None
  end.

Definition match_here (props : list (string * json)) (path : string) : option DirectMatch :=
  test_entry (string_prop "file_type" props) (string_prop "url" props) path.

(** [walk] on a tree.  Every object and array of a freshly parsed document
    is a distinct reference, so the [seen] test never fires; the heap model
    below keeps the set and [walkH_unfolds] relates the two. *)
Fixpoint walk (node : json) (path : string) : option DirectMatch :=
  match node with
  | JArr items =>
      for_index (fun i x => walk x (index_path path i)) 0 items
  | JObj props =>
      match match_here props path with
      | Some hit => Some hit
      | None => for_of (fun e => walk (snd e) (key_path path (fst e))) props
      end
  | _ => None
  end.

Definition findFirstDirectMatch (value : json) : option DirectMatch :=
  walk value "".

(** ** URLs *)

(** A parsed URL.  [scheme] has no colon, [authority] is the serialised
    user info, host and port, and [query] / [fragment] are [None] for the
    URL standard's null.  Components hold the percent-encoded text the URL
    parser produced; the setters below are given such text, on which the
    parser's encoding step changes nothing. *)
Record URL := mkURL {
  scheme : string;
  authority : string;
  pathname : string;
  query : option string;
  fragment : option string;
}.

(** The [search] getter: empty for a null or empty query. *)
Definition search (u : URL) : string :=
  match query u with
  | None => ""
  | Some q => if String.eqb q "" then "" else "?" +:+ q
  end.

(** The [hash] getter. *)
Definition hash (u : URL) : string :=
  match fragment u with
  | None => ""
  | Some f => if String.eqb f "" then "" else "#" +:+ f
  end.

Definition strip_leading (c : ascii) (s : string) : string :=
  match s with
  | String c' r => if Ascii.eqb c' c then r else s
  | EmptyString => s
  end.

(** The [search] setter: the empty string clears the query, otherwise one
    leading [?] is dropped. *)
Definition set_search (v : string) (u : URL) : URL :=
  {| scheme := scheme u; authority := authority u; pathname := pathname u;
     query := if String.eqb v "" then None else Some (strip_leading "?" v);
     fragment := fragment u |}.

(** The [hash] setter. *)
Definition set_hash (v : string) (u : URL) : URL :=
  {| scheme := scheme u; authority := authority u; pathname := pathname u;
     query := query u;
     fragment := if String.eqb v "" then None else Some (strip_leading "#" v) |}.

(** The [pathname] setter of a URL with a host. *)
Definition set_pathname (v : string) (u : URL) : URL :=
  {| scheme := scheme u; authority := authority u; pathname := v;
     query := query u; fragment := fragment u |}.

(** [u.toString()], the URL serializer. *)
Definition href (u : URL) : string :=
  scheme u +:+ "://" +:+ authority u +:+ pathname u
  +:+ match query u with Some q => "?" +:+ q | None => "" end
  +:+ match fragment u with Some f => "#" +:+ f | None => "" end.

(** [const UPSTREAM_HOST = "https://jbangdev.github.io"], and
    [new URL(UPSTREAM_HOST)]. *)
Definition UPSTREAM_HOST : string := "https://jbangdev.github.io".

Definition UPSTREAM_HOST_URL : URL :=
  {| scheme := "https"; authority := "jbangdev.github.io"; pathname := "/";
     query := None; fragment := None |}.

Definition UPSTREAM_METADATA_PREFIX : string := "/jdkdb-data/metadata/".

Definition marker : string := "/metadata/".

Definition buildUpstreamMetadataUrl (inbound : URL) : option URL :=
  match Str.indexOf marker (pathname inbound) with
  | None => None
  | Some idx =>
      let rest := Str.slice (idx + String.length marker) (pathname inbound) in
      let upstream := UPSTREAM_HOST_URL in
      let upstream := set_pathname (UPSTREAM_METADATA_PREFIX +:+ rest) upstream in
      let upstream := set_search (search inbound) upstream in
      let upstream := set_hash (hash inbound) upstream in
      Some upstream
  end.

(** ** URLSearchParams: the application/x-www-form-urlencoded format

    Names and values are byte strings; the UTF-8 decoding applied by the
    platform leaves ASCII names such as [direct] unchanged and never yields
    an ASCII name from a non-ASCII one. *)

Module Form.

Definition is_digit (n : nat) : bool := (48 <=? n)%nat && (n <=? 57)%nat.
Definition is_upper (n : nat) : bool := (65 <=? n)%nat && (n <=? 90)%nat.
Definition is_lower (n : nat) : bool := (97 <=? n)%nat && (n <=? 122)%nat.

(** Value of an ASCII hex digit. *)
Definition hex_value (c : ascii) : option nat :=
  let n := nat_of_ascii c in
  if is_digit n then Some (n - 48)
  else if (65 <=? n)%nat && (n <=? 70)%nat then Some (n - 55)
  else if (97 <=? n)%nat && (n <=? 102)%nat then Some (n - 87)
  else None.

(** Upper-case hex digit of a value below 16. *)
Definition hex_digit (v : nat) : ascii :=
  if (v <? 10)%nat then ascii_of_nat (48 + v) else ascii_of_nat (55 + v).

(** Percent-decode a byte sequence: [%XY] with two hex digits becomes one
    byte, any other [%] stays. *)
Fixpoint percent_decode (s : string) : string :=
  match s with
  | EmptyString => EmptyString
  | String c r =>
      if Ascii.eqb c "%" then
        match r with
        | String a (String b r') =>
            match hex_value a, hex_value b with
            | Some x, Some y => String (ascii_of_nat (16 * x + y)) (percent_decode r')
            | _, _ => String c (percent_decode r)
            end
        | _ => String c (percent_decode r)
        end
      else String c (percent_decode r)
  end.

(** Replace every [+] by a space. *)
Fixpoint plus_to_space (s : string) : string :=
  match s with
  | EmptyString => EmptyString
  | String c r => String (if Ascii.eqb c "+" then " "%char else c) (plus_to_space r)
  end.

(** Strictly split on a byte; the result is never empty. *)
Fixpoint split_on (sep : ascii) (s : string) : list string :=
  match s with
  | EmptyString => [EmptyString]
  | String c r =>
      if Ascii.eqb c sep then EmptyString :: split_on sep r
      else match split_on sep r with
           | h :: t => String c h :: t
           | [] => [String c EmptyString]
           end
  end.

(** Cut at the first occurrence of a byte: name and value of a sequence
    (the value is empty when there is no [=]). *)
Fixpoint cut (sep : ascii) (s : string) : string * string :=
  match s with
  | EmptyString => (EmptyString, EmptyString)
  | String c r =>
      if Ascii.eqb c sep then (EmptyString, r)
      else let '(n, v) := cut sep r in (String c n, v)
  end.

Definition decode (s : string) : string := percent_decode (plus_to_space s).

Definition parse_sequence (bytes : string) : string * string :=
  let '(n, v) := cut "=" bytes in (decode n, decode v).

(** The urlencoded parser: split on [&], skip empty sequences. *)
Definition parse (input : string) : list (string * string) :=
  map parse_sequence
      (List.filter (fun b => negb (String.eqb b "")) (split_on "&" input)).

(** The urlencoded byte serializer. *)
Definition keep (c : ascii) : bool :=
  let n := nat_of_ascii c in
  is_digit n || is_upper n || is_lower n
  || (n =? 42)%nat || (n =? 45)%nat || (n =? 46)%nat || (n =? 95)%nat.

Definition encode_byte (c : ascii) : string :=
  if Ascii.eqb c " " then "+"
  else if keep c then String c EmptyString
  else let n := nat_of_ascii c in
       String "%" (String (hex_digit (n / 16)) (String (hex_digit (n mod 16)) EmptyString)).

Fixpoint encode (s : string) : string :=
  match s with
  | EmptyString => EmptyString
  | String c r => encode_byte c +:+ encode r
  end.

(** The urlencoded serializer: [name=value] joined by [&]. *)
Fixpoint serialize (l : list (string * string)) : string :=
  match l with
  | [] => ""
  | [(n, v)] => encode n +:+ "=" +:+ encode v
  | (n, v) :: r => encode n +:+ "=" +:+ encode v +:+ "&" +:+ serialize r
  end.

End Form.

(** [u.searchParams]: the list parsed from the query. *)
Definition searchParams (u : URL) : list (string * string) :=
  Form.parse (default "" (query u)).

(** [params.has(name)] *)
Definition has (name : string) (params : list (string * string)) : bool :=
  existsb (fun p => String.eqb (fst p) name) params.

(** [u.searchParams.delete(name)]: drop every tuple named [name], then
    update the URL's query from the serialised list (null when empty). *)
Definition searchParams_delete (name : string) (u : URL) : URL :=
  let list := List.filter (fun p => negb (String.eqb (fst p) name)) (searchParams u) in
  let serialized := Form.serialize list in
  {| scheme := scheme u; authority := authority u; pathname := pathname u;
     query := if String.eqb serialized "" then None else Some serialized;
     fragment := fragment u |}.

Definition isDirectJsonRequest (u : URL) : bool :=
  has "direct" (searchParams u) && Str.endsWith ".json" (Str.toLowerCase (pathname u)).

(** ** Diagnostics: [JSON.stringify] and the 404 responder *)

Definition LF : string := String (ascii_of_nat 10) EmptyString.

Module Stringify.

(** Lower-case hex digit, for [\u00XX] escapes. *)
Definition hex_lower (v : nat) : ascii :=
  if (v <? 10)%nat then ascii_of_nat (48 + v) else ascii_of_nat (87 + v).

(** QuoteJSONString on one byte: the two-character escapes, [\u00XX] for
    the other control characters, everything else unchanged. *)
Definition escape (c : ascii) : string :=
  let n := nat_of_ascii c in
  if (n =? 8)%nat then "\b"
  else if (n =? 9)%nat then "\t"
  else if (n =? 10)%nat then "\n"
  else if (n =? 12)%nat then "\f"
  else if (n =? 13)%nat then "\r"
  else if (n =? 34)%nat then String "\" (String c EmptyString)
  else if (n =? 92)%nat then "\\"
  else if (n <? 32)%nat then
    "\u00" +:+ String (hex_lower (n / 16)) (String (hex_lower (n mod 16)) EmptyString)
  else String c EmptyString.

Fixpoint escape_all (s : string) : string :=
  match s with
  | EmptyString => EmptyString
  | String c r => escape c +:+ escape_all r
  end.

Definition DQ : string := String (ascii_of_nat 34) EmptyString.

Definition quote (s : string) : string := DQ +:+ escape_all s +:+ DQ.

(** [partial.join(sep)] *)
Fixpoint join (sep : string) (l : list string) : string :=
  match l with
  | [] => ""
  | [x] => x
  | x :: r => x +:+ sep +:+ join sep r
  end.

(** SerializeJSONProperty with a non-empty [gap]; [indent] is the
    indentation of the enclosing line. *)
Fixpoint serialize (gap indent : string) (v : json) : string :=
  match v with
  | JNull => "null"
  | JBool true => "true"
  | JBool false => "false"
  | JNum lit => lit
  | JStr s => quote s
  | JArr items =>
      let stepback := indent in
      let indent := indent +:+ gap in
      match items with
      | [] => "[]"
      | _ =>
          let partial := map (serialize gap indent) items in
          "[" +:+ LF +:+ indent +:+ join ("," +:+ LF +:+ indent) partial
              +:+ LF +:+ stepback +:+ "]"
      end
  | JObj props =>
      let stepback := indent in
      let indent := indent +:+ gap in
      match props with
      | [] => "{}"
      | _ =>
          let partial :=
            map (fun e => quote (fst e) +:+ ": " +:+ serialize gap indent (snd e)) props in
          "{" +:+ LF +:+ indent +:+ join ("," +:+ LF +:+ indent) partial
              +:+ LF +:+ stepback +:+ "}"
      end
  end.

(** [JSON.stringify(value, null, 2)] *)
Definition stringify2 (v : json) : string := serialize "  " "" v.

End Stringify.

Record Response := mkResponse {
  status : nat;
  headers : list (string * string);
  body : option string;
}.

(** A context mapping: keys in insertion order, JSON-serialisable values. *)
Definition Context : Type := list (string * json).

Definition notFoundWithContext (message : string) (context : Context) : Response :=
  let body :=
    "404 Not Found" +:+ LF +:+ LF +:+ message +:+ LF +:+ LF
    +:+ "Context:" +:+ LF
    +:+ Stringify.stringify2 (JObj context) +:+ LF in
  {| status := 404;
     headers := [("content-type", "text/plain; charset=utf-8")];
     body := Some body |}.

(** ** [new URL(s)]: when the URL parser succeeds

    [isValidAbsoluteUrl] only observes whether [new URL(maybeUrl)] throws.
    With no base URL the basic URL parser of the URL standard fails in four
    places: the input has no scheme; an authority has credentials or a port
    but no host, or a special scheme has an empty host; the host parser
    rejects the host; the port is not a number below 65536.  The states up to
    the host are transcribed here; the host parser itself (domains, IDNA, IP
    literals) is a parameter. *)

Module UrlParser.

Definition code (c : ascii) : nat := nat_of_ascii c.

Definition is_alpha (c : ascii) : bool :=
  Form.is_upper (code c) || Form.is_lower (code c).

Definition is_alnum (c : ascii) : bool := is_alpha c || Form.is_digit (code c).

(** A C0 control or space. *)
Definition is_c0_or_space (c : ascii) : bool := (code c <=? 32)%nat.

(** An ASCII tab or newline. *)
Definition is_tab_or_newline (c : ascii) : bool :=
  (code c =? 9)%nat || (code c =? 10)%nat || (code c =? 13)%nat.

Fixpoint strip_left (s : string) : string :=
  match s with
  | String c r => if is_c0_or_space c then strip_left r else s
  | EmptyString => EmptyString
  end.

(** Drop trailing C0 controls and spaces. *)
Fixpoint strip_right (s : string) : string :=
  match s with
  | EmptyString => EmptyString
  | String c r =>
      match strip_right r with
      | EmptyString => if is_c0_or_space c then EmptyString else String c EmptyString
      | r' => String c r'
      end
  end.

Fixpoint remove_tab_newline (s : string) : string :=
  match s with
  | EmptyString => EmptyString
  | String c r =>
      if is_tab_or_newline c then remove_tab_newline r
      else String c (remove_tab_newline r)
  end.

(** The input as the state machine reads it. *)
Definition preprocess (s : string) : string :=
  remove_tab_newline (strip_right (strip_left s)).

(** Scheme state: characters up to the first [:], all of them alphanumeric,
    [+], [-] or [.]; the scheme is lower-cased. *)
Fixpoint scheme_state (s : string) : option (string * string) :=
  match s with
  | EmptyString => None
  | String c r =>
      if Ascii.eqb c ":" then Some (EmptyString, r)
      else if is_alnum c || Ascii.eqb c "+" || Ascii.eqb c "-" || Ascii.eqb c "." then
        match scheme_state r with
        | Some (sch, rest) => Some (String (Str.lower_ascii c) sch, rest)
        | None => None
        end
      else None
  end.

(** Scheme start state: the first character must be a letter. *)
Definition split_scheme (s : string) : option (string * string) :=
  match s with
  | String c _ => if is_alpha c then scheme_state s else None
  | EmptyString => None
  end.

Definition is_special (sch : string) : bool :=
  existsb (String.eqb sch) ["ftp"; "file"; "http"; "https"; "ws"; "wss"].

(** The characters that end an authority. *)
Definition ends_authority (special : bool) (c : ascii) : bool :=
  Ascii.eqb c "/" || Ascii.eqb c "?" || Ascii.eqb c "#"
  || (special && Ascii.eqb c "\").

Fixpoint take_until (stop : ascii -> bool) (s : string) : string :=
  match s with
  | EmptyString => EmptyString
  | String c r => if stop c then EmptyString else String c (take_until stop r)
  end.

(** Special authority ignore slashes state. *)
Fixpoint skip_slashes (s : string) : string :=
  match s with
  | String c r => if Ascii.eqb c "/" || Ascii.eqb c "\" then skip_slashes r else s
  | EmptyString => EmptyString
  end.

(** Where the authority state starts, if the input reaches it: after any
    run of slashes for a special scheme other than [file], after exactly
    [//] otherwise.  [file] has its own states. *)
Definition authority_text (sch rest : string) : option string :=
  if String.eqb sch "file" then None
  else if is_special sch then Some (take_until (ends_authority true) (skip_slashes rest))
  else match rest with
       | String "/" (String "/" r) => Some (take_until (ends_authority false) r)
       | _ => None
       end.

(** Value of a string of digits. *)
Fixpoint digits_value (acc : N) (s : string) : option N :=
  match s with
  | EmptyString => Some acc
  | String c r =>
      if Form.is_digit (code c)
      then digits_value (10 * acc + N.of_nat (code c - 48))%N r
      else None
  end.

(** Port state, on the text between [:] and the end of the authority. *)
Definition port_state (s : string) : bool :=
  match digits_value 0%N s with
  | Some p => (p <=? 65535)%N
  | None => false
  end.

Section WithHostParser.

(** [host_parses isOpaque input]: the host parser returns a host. *)
Variable host_parses : bool -> string -> bool.

(** Host state, on the authority text after the credentials. *)
Fixpoint host_state (special inside : bool) (buffer s : string) : bool :=
  match s with
  | EmptyString =>
      if special && String.eqb buffer "" then false
      else host_parses (negb special) buffer
  | String c r =>
      if Ascii.eqb c ":" && negb inside then
        if String.eqb buffer "" then false
        else host_parses (negb special) buffer && port_state r
      else
        let inside :=
          if Ascii.eqb c "[" then true
          else if Ascii.eqb c "]" then false else inside in
        host_state special inside (buffer +:+ String c EmptyString) r
  end.

(** Authority state: the host starts after the last [@]; credentials with
    nothing after them are a failure. *)
Definition authority_state (special : bool) (auth : string) : bool :=
  let parts := Form.split_on "@" auth in
  let atSignSeen := (1 <? List.length parts)%nat in
  let buffer := List.last parts EmptyString in
  if atSignSeen && String.eqb buffer "" then false
  else host_state special false EmptyString buffer.

Definition is_slash (c : ascii) : bool := Ascii.eqb c "/" || Ascii.eqb c "\".

Definition is_drive_letter (s : string) : bool :=
  match s with
  | String a (String b EmptyString) => is_alpha a && (Ascii.eqb b ":" || Ascii.eqb b "|")
  | _ => false
  end.

(** File, file slash and file host states. *)
Definition file_state (rest : string) : bool :=
  match rest with
  | String a (String b r) =>
      if is_slash a && is_slash b then
        let buffer := take_until (ends_authority true) r in
        if is_drive_letter buffer then true
        else if String.eqb buffer "" then true
        else host_parses false buffer
      else true
  | _ => true
  end.

(** [new URL(s)] returns rather than throws. *)
Definition parses (s : string) : bool :=
  match split_scheme (preprocess s) with
  | None => false
  | Some (sch, rest) =>
      if String.eqb sch "file" then file_state rest
      else match authority_text sch rest with
           | Some auth => authority_state (is_special sch) auth
           | None => true
           end
  end.

Definition isValidAbsoluteUrl (maybeUrl : string) : bool := parses maybeUrl.

End WithHostParser.
End UrlParser.

(** ** The request handler *)

(** The inbound request: opaque apart from its URL. *)
Record Request := mkRequest {
  req_url : URL;
  req_method : string;
  req_headers : list (string * string);
  req_body : option string;
}.

(** The second argument of [fetch(url, init)]. *)
Record FetchInit := mkFetchInit {
  init_method : string;
  init_headers : list (string * string);
}.

(** A thrown value: an [Error] with its name and message, or anything else
    with its [String(err)]. *)
Inductive Thrown : Type :=
| ThrownError (name message : string)
| ThrownOther (text : string).

(** [err instanceof Error ? `${err.name}: ${err.message}` : String(err)] *)
Definition describe (err : Thrown) : string :=
  match err with
  | ThrownError name message => name +:+ ": " +:+ message
  | ThrownOther text => text
  end.

(** *** [new Response(body, init)]

    The constructor fills the response's header list from [init.headers].
    Each value is normalised, its leading and trailing HTTP whitespace
    (tab, line feed, carriage return, space) is removed, and must then be a
    header value, free of NUL, line feed and carriage return; each name must
    be a token.  Otherwise the constructor throws a [TypeError].  A status
    outside 200..599 is a [RangeError], and a body with a null body status
    a [TypeError].  Strings go to header bytes as their UTF-8 bytes, as the
    worker runtime sends them. *)

Module Header.

Definition code (c : ascii) : nat := nat_of_ascii c.

(** An HTTP whitespace byte. *)
Definition is_whitespace (c : ascii) : bool :=
  (code c =? 9)%nat || (code c =? 10)%nat || (code c =? 13)%nat || (code c =? 32)%nat.

Fixpoint strip_left (s : string) : string :=
  match s with
  | String c r => if is_whitespace c then strip_left r else s
  | EmptyString => EmptyString
  end.

Fixpoint strip_right (s : string) : string :=
  match s with
  | EmptyString => EmptyString
  | String c r =>
      match strip_right r with
      | EmptyString => if is_whitespace c then EmptyString else String c EmptyString
      | r' => String c r'
      end
  end.

(** Normalise a header value. *)
Definition normalize (v : string) : string := strip_right (strip_left v).

(** NUL, line feed or carriage return. *)
Definition forbidden (c : ascii) : bool :=
  (code c =? 0)%nat || (code c =? 10)%nat || (code c =? 13)%nat.

Fixpoint has_forbidden (v : string) : bool :=
  match v with
  | EmptyString => false
  | String c r => forbidden c || has_forbidden r
  end.

(** A header value, once normalised. *)
Definition valid (v : string) : bool := negb (has_forbidden v).

(** A token character of a header name. *)
Definition is_tchar (c : ascii) : bool :=
  Form.is_digit (code c) || Form.is_upper (code c) || Form.is_lower (code c)
  || existsb (Ascii.eqb c)
       (list_ascii_of_string ("!#$%&'*+-.^_`|~")).

Definition valid_name (n : string) : bool :=
  negb (String.eqb n "") && forallb is_tchar (list_ascii_of_string n).

(** Fill a header list from the entries of [init.headers], in order;
    [None] when an entry is refused.  (The guard of a response only
    concerns [set-cookie] names, which the worker never sets.) *)
Fixpoint fill (init : list (string * string)) : option (list (string * string)) :=
  match init with
  | [] => Some []
  | (n, v) :: r =>
      let v := normalize v in
      if valid_name n && valid v then
        match fill r with
        | Some hs => Some ((n, v) :: hs)
        | None => None
        end
      else None
  end.

End Header.

(** A status for which a response has no body. *)
Definition null_body_status (status : nat) : bool :=
  existsb (Nat.eqb status) [101; 103; 204; 205; 304].

Definition invalid_header : Thrown := ThrownError "TypeError" "Invalid header".

Definition new_Response (body : option string) (status : nat)
           (init_headers : list (string * string)) : Thrown + Response :=
  if negb ((200 <=? status)%nat && (status <=? 599)%nat) then
    inl (ThrownError "RangeError" "Invalid status")
  else
    match Header.fill init_headers with
    | None => inl invalid_header
    | Some hs =>
        match body with
        | Some _ =>
            if null_body_status status
            then inl (ThrownError "TypeError" "Response with null body status cannot have body")
            else inr {| status := status; headers := hs; body := body |}
        | None => inr {| status := status; headers := hs; body := body |}
        end
    end.

(** What the handler observes of the upstream response: [status],
    [statusText], [headers.get("content-type")] and the outcome of
    [await res.json()]. *)
Record UpstreamResponse := mkUpstreamResponse {
  up_status : nat;
  up_statusText : string;
  up_contentType : option string;
  up_json : Thrown + json;
}.

(** [res.ok] *)
Definition ok (res : UpstreamResponse) : bool :=
  (200 <=? up_status res)%nat && (up_status res <=? 299)%nat.

(** The outcome of [await fetch(...)]. *)
Inductive FetchResult : Type :=
| Rejected (err : Thrown)
| Resolved (res : UpstreamResponse).

(** The handler up to its first suspension point: it answers at once,
    hands the request over to [fetch(new Request(upstreamUrl, request))]
    and returns that promise as it is, or awaits [fetch(url, init)] and
    goes on from the outcome, to a response or to an exception that nothing
    catches. *)
Inductive Handler : Type :=
| Respond (r : Response)
| PassThrough (upstreamUrl : URL) (request : Request)
| AwaitFetch (target : string) (init : FetchInit) (k : FetchResult -> Thrown + Response).

Definition opt_json (o : option string) : json :=
  match o with
  | Some s => JStr s
  | None => JNull
  end.

Definition match_json (m : DirectMatch) : json :=
  JObj [("url", JStr (url m)); ("fileType", JStr (fileType m)); ("jsonPath", JStr (jsonPath m))].

(** The message of line 149; it contains double quotes. *)
Definition no_entry_message : string :=
  "No entry found with `file_type` of " +:+ Stringify.DQ +:+ "tar.gz" +:+ Stringify.DQ
  +:+ " or " +:+ Stringify.DQ +:+ "zip" +:+ Stringify.DQ +:+ " and a `url` field.".

Section Worker.

Variable host_parses : bool -> string -> bool.

(** Lines 111-169: everything after the upstream fetch settles.  [requestUrl]
    is the inbound URL [url], [upstreamUrl] the one fetched. *)
Definition resolve (requestUrl upstreamUrl : URL) (outcome : FetchResult)
  : Thrown + Response :=
  match outcome with
  | Rejected err =>
      inr (notFoundWithContext "Upstream fetch failed."
             [("requestUrl", JStr (href requestUrl));
              ("upstreamUrl", JStr (href upstreamUrl));
              ("error", JStr (describe err))])
  | Resolved upstreamRes =>
      if negb (ok upstreamRes) then
        inr (notFoundWithContext "Upstream returned non-OK status for JSON metadata."
               [("requestUrl", JStr (href requestUrl));
                ("upstreamUrl", JStr (href upstreamUrl));
                ("upstreamStatus", JNum (Str.of_nat (up_status upstreamRes)));
                ("upstreamStatusText", JStr (up_statusText upstreamRes));
                ("upstreamContentType", opt_json (up_contentType upstreamRes))])
      else
        match up_json upstreamRes with
        | inl err =>
            inr (notFoundWithContext "Upstream response was not valid JSON."
                   [("requestUrl", JStr (href requestUrl));
                    ("upstreamUrl", JStr (href upstreamUrl));
                    ("upstreamContentType", opt_json (up_contentType upstreamRes));
                    ("error", JStr (describe err))])
        | inr doc =>
            match findFirstDirectMatch doc with
            | None =>
                inr (notFoundWithContext no_entry_message
                       [("requestUrl", JStr (href requestUrl));
                        ("upstreamUrl", JStr (href upstreamUrl))])
            | Some match_ =>
                if negb (UrlParser.isValidAbsoluteUrl host_parses (url match_)) then
                  inr (notFoundWithContext "Matched entry had an invalid URL."
                         [("requestUrl", JStr (href requestUrl));
                          ("upstreamUrl", JStr (href upstreamUrl));
                          ("match", match_json match_)])
                else
                  new_Response None 302
                    [("location", url match_); ("cache-control", "no-store")]
            end
        end
  end.

Definition fetch (request : Request) : Handler :=
  let requestUrl := req_url request in
  match buildUpstreamMetadataUrl requestUrl with
  | None =>
      Respond
        (notFoundWithContext
           "Request path did not contain a /metadata/ segment, so it could not be proxied."
           [("requestUrl", JStr (href requestUrl));
            ("pathname", JStr (pathname requestUrl));
            ("expected", JStr "A path containing '/metadata/' (e.g. /java/metadata/ga/... or /metadata/ga/...)")])
  | Some upstreamUrl =>
      if negb (isDirectJsonRequest requestUrl) then PassThrough upstreamUrl request
      else
        let upstreamUrl := searchParams_delete "direct" upstreamUrl in
        AwaitFetch (href upstreamUrl)
          {| init_method := "GET"; init_headers := [("accept", "application/json")] |}
          (resolve requestUrl upstreamUrl)
  end.

End Worker.

(** What the caller of the handler gets, given how the upstream answers
    [fetch(target, init)]: a response built by the handler, the promise of
    the forwarded request, untouched, or an exception of the handler. *)
Inductive Outcome : Type :=
| Answered (r : Response)
| Forwarded (upstreamUrl : URL) (request : Request)
| Threw (err : Thrown).

Definition run (upstream : string -> FetchInit -> FetchResult) (h : Handler) : Outcome :=
  match h with
  | Respond r => Answered r
  | PassThrough upstreamUrl request => Forwarded upstreamUrl request
  | AwaitFetch target init k =>
      match k (upstream target init) with
      | inr r => Answered r
      | inl err => Threw err
      end
  end.

(** ** Object graphs: [walk] with its [seen] set

    [findFirstDirectMatch] accepts any value.  A value is a primitive or a
    reference; the heap gives each reference its array or its plain object.
    References may be shared and may form cycles. *)

Definition loc : Type := positive.

Inductive value : Type :=
| VUndefined
| VNull
| VBool (b : bool)
| VNum (lit : string)
| VStr (s : string)
| VRef (l : loc).

Inductive cell : Type :=
| CArr (items : list value)
| CObj (props : list (string * value)).

Abbreviation heap := (gmap loc cell).

(** Loops whose body threads a state and may run out of fuel ([None]). *)
Section StateLoops.
Context {A B St : Type}.

Section IndexedSt.
Variable body : nat -> A -> St -> option (option B * St).

Fixpoint for_index_st (i : nat) (l : list A) (s : St) : option (option B * St) :=
  match l with
  | [] => Some (None, s)
  | x :: r =>
      match body i x s with
      | None => None
      | Some (Some hit, s') => Some (Some hit, s')
      | Some (None, s') => for_index_st (S i) r s'
      end
  end.
End IndexedSt.

Section EachSt.
Variable body : A -> St -> option (option B * St).

Fixpoint for_of_st (l : list A) (s : St) : option (option B * St) :=
  match l with
  | [] => Some (None, s)
  | x :: r =>
      match body x s with
      | None => None
      | Some (Some hit, s') => Some (Some hit, s')
      | Some (None, s') => for_of_st r s'
      end
  end.
End EachSt.
End StateLoops.

(** [typeof obj[k] === "string" ? obj[k] : null] on a heap object. *)
Definition string_propH (k : string) (props : list (string * value)) : option string :=
  match get_prop k props with
  | Some (VStr s) => Some s
  | _ => None
  end.

Definition match_hereH (props : list (string * value)) (path : string) : option DirectMatch :=
  test_entry (string_propH "file_type" props) (string_propH "url" props) path.

(** [walk] with the [seen] set as explicit state.  [fuel] bounds the depth
    of the recursion; the outer [None] means the bound was reached.  A
    reference outside the heap is treated as an object without properties
    (a well-formed graph has none). *)
Fixpoint walkH (fuel : nat) (h : heap) (node : value) (path : string) (seen : gset loc)
  : option (option DirectMatch * gset loc) :=
  match fuel with
  | O => None
  | S fuel' =>
      match node with
      | VRef l =>
          if decide (l ∈ seen) then Some (None, seen)
          else
            let seen := {[l]} ∪ seen in
            match h !! l with
            | Some (CArr items) =>
                for_index_st (fun i x s => walkH fuel' h x (index_path path i) s) 0 items seen
            | Some (CObj props) =>
                match match_hereH props path with
                | Some hit => Some (Some hit, seen)
                | None =>
                    for_of_st (fun e s => walkH fuel' h (snd e) (key_path path (fst e)) s)
                              props seen
                end
            | None => Some (None, seen)
            end
      | _ => Some (None, seen)
      end
  end.

(** [findFirstDirectMatch] on an object graph.  The recursion is never
    deeper than the number of cells plus one. *)
Definition findFirstDirectMatchH (h : heap) (value : value) : option (option DirectMatch) :=
  fst <$> walkH (S (size h)) h value "" ∅.

(** A graph value unfolds to a JSON tree: the graph below it has no cycle.
    Sharing is allowed. *)
Section All2.
Context {A B : Type}.
Variable R : A -> B -> Prop.

Fixpoint all2 (l : list A) (l' : list B) : Prop :=
  match l, l' with
  | [], [] => True
  | x :: r, y :: r' => R x y /\ all2 r r'
  | _, _ => False
  end.
End All2.

Fixpoint unfolds (h : heap) (t : json) (v : value) : Prop :=
  match t with
  | JNull => v = VNull
  | JBool b => v = VBool b
  | JNum lit => v = VNum lit
  | JStr s => v = VStr s
  | JArr ts =>
      exists l vs, v = VRef l /\ h !! l = Some (CArr vs) /\ all2 (unfolds h) ts vs
  | JObj tps =>
      exists l ps, v = VRef l /\ h !! l = Some (CObj ps)
        /\ all2 (fun tp p => fst tp = fst p /\ unfolds h (snd tp) (snd p)) tps ps
  end.

(** ** Notions used to state the properties *)

(** [m] occurs in [s] after [pre], and nowhere earlier. *)
Definition first_occurrence (m s pre rest : string) : Prop :=
  s = pre +:+ m +:+ rest
  /\ forall pre' rest', s = pre' +:+ m +:+ rest' -> String.length pre <= String.length pre'.

(** Pre-order enumeration of a document: each node with its path, a node
    before its children, array items by index, object entries in their
    iteration order. *)
Section ConcatIndex.
Context {A B : Type}.
Variable f : nat -> A -> list B.

Fixpoint concat_index (i : nat) (l : list A) : list B :=
  match l with
  | [] => []
  | x :: r => f i x ++ concat_index (S i) r
  end.
End ConcatIndex.

Fixpoint preorder (node : json) (path : string) : list (string * json) :=
  (path, node) ::
  match node with
  | JArr items => concat_index (fun i x => preorder x (index_path path i)) 0 items
  | JObj props => flat_map (fun e => preorder (snd e) (key_path path (fst e))) props
  | _ => []
  end.

(** The archive entry a node carries: an object whose [file_type] is a
    string equal, ignoring case, to [tar.gz] or [zip] and whose [url] is a
    string accepted by [url_ok].  The result is the lower-cased type and the
    URL. *)
Definition archive_entry (url_ok : string -> bool) (node : json) : option (string * string) :=
  match node with
  | JObj props =>
      match get_prop "file_type" props, get_prop "url" props with
      | Some (JStr ft), Some (JStr u) =>
          let ft := Str.toLowerCase ft in
          if (String.eqb ft "tar.gz" || String.eqb ft "zip") && url_ok u
          then Some (ft, u) else None
      | _, _ => None
      end
  | _ => None
  end.

Definition entry_match (url_ok : string -> bool) (pn : string * json) : option DirectMatch :=
  match archive_entry url_ok (snd pn) with
  | Some (ft, u) => Some {| url := u; fileType := ft; jsonPath := fst pn |}
  | None => None
  end.

(** The first match of a pre-order traversal from the root. *)
Definition first_in_preorder (url_ok : string -> bool) (value : json) : option DirectMatch :=
  head (omap (entry_match url_ok) (preorder value "")).

(** Any string is a URL string; the empty string is not a usable one. *)
Definition any_string (u : string) : bool := true.
Definition non_empty (u : string) : bool := negb (String.eqb u "").

(** The document of the traversal example,
    [{"a": [{"file_type":"exe","url":"x"}, {"file_type":"TAR.GZ","url":"http://h/f.tar.gz"}]}]. *)
Definition traversal_example : json :=
  JObj [("a", JArr [JObj [("file_type", JStr "exe"); ("url", JStr "x")];
                    JObj [("file_type", JStr "TAR.GZ"); ("url", JStr "http://h/f.tar.gz")]])].

(** [[{"file_type":"zip","url":""}, {"file_type":"zip","url":"https://h/a.zip"}]] *)
Definition empty_url_example : json :=
  JArr [JObj [("file_type", JStr "zip"); ("url", JStr "")];
        JObj [("file_type", JStr "zip"); ("url", JStr "https://h/a.zip")]].

(** The query has a parameter called [name], whatever its value. *)
Definition has_param (name : string) (u : URL) : Prop :=
  exists v, In (name, v) (searchParams u).

(** [s] ends with [p] when case is ignored ([p] is given in lower case). *)
Definition ends_with_ignoring_case (p s : string) : Prop :=
  exists pre suf, s = pre +:+ suf /\ Str.toLowerCase suf = p.

(** A host parser for examples: non-empty names of letters, digits, [-]
    and [.]. *)
Definition plain_host (isOpaque : bool) (input : string) : bool :=
  negb (String.eqb input "")
  && forallb (fun c => UrlParser.is_alnum c || Ascii.eqb c "-" || Ascii.eqb c ".")
             (list_ascii_of_string input).

(** Example requests: [GET https://worker.example<path>?<query>]. *)
Definition worker_url (path : string) (q : option string) : URL :=
  {| scheme := "https"; authority := "worker.example"; pathname := path;
     query := q; fragment := None |}.

Definition get (u : URL) : Request :=
  {| req_url := u; req_method := "GET"; req_headers := []; req_body := None |}.

Definition missing_marker_message : string :=
  "Request path did not contain a /metadata/ segment, so it could not be proxied.".

(** Lines of text, each ended by a line feed. *)
Fixpoint unlines (l : list string) : string :=
  match l with
  | [] => ""
  | x :: r => x +:+ LF +:+ unlines r
  end.

(** One entry of an object at the top level of a 2-space-indented
    serialisation: two spaces, the quoted key, a colon and a space, the
    value. *)
Definition context_line (e : string * json) : string :=
  "  " +:+ Stringify.quote (fst e) +:+ ": " +:+ Stringify.serialize "  " "  " (snd e).

(** The [init] of the upstream JSON fetch. *)
Definition json_init : FetchInit :=
  {| init_method := "GET"; init_headers := [("accept", "application/json")] |}.

(** The redirect to [location]. *)
Definition redirect (location : string) : Response :=
  {| status := 302;
     headers := [("location", location); ("cache-control", "no-store")];
     body := None |}.

(** Example upstreams: one that answers a GET of [target] with [res] and
    fails on anything else, and one that is unreachable. *)
Definition upstream_serving (target : string) (res : UpstreamResponse)
  : string -> FetchInit -> FetchResult :=
  fun t init =>
    if String.eqb t target && String.eqb (init_method init) "GET"
    then Resolved res
    else Rejected (ThrownError "TypeError" "fetch failed").

Definition upstream_down : string -> FetchInit -> FetchResult :=
  fun _ _ => Rejected (ThrownError "TypeError" "fetch failed").

Definition json_response (doc : json) : UpstreamResponse :=
  {| up_status := 200; up_statusText := "OK";
     up_contentType := Some "application/json"; up_json := inr doc |}.

Definition error_response (code : nat) (text : string) : UpstreamResponse :=
  {| up_status := code; up_statusText := text;
     up_contentType := Some "text/html";
     up_json := inl (ThrownError "SyntaxError" "Unexpected token < in JSON at position 0") |}.

Definition archive (file_type location : string) : json :=
  JObj [("file_type", JStr file_type); ("url", JStr location)].

(** [GET /java/metadata/ga/linux/x86_64/foo.json?direct] and the URL the
    worker fetches for it. *)
Definition foo_request : Request :=
  get (worker_url "/java/metadata/ga/linux/x86_64/foo.json" (Some "direct")).

Definition foo_upstream : URL :=
  {| scheme := "https"; authority := "jbangdev.github.io";
     pathname := "/jdkdb-data/metadata/ga/linux/x86_64/foo.json";
     query := Some "direct"; fragment := None |}.

Definition foo_target : string :=
  "https://jbangdev.github.io/jdkdb-data/metadata/ga/linux/x86_64/foo.json".

(** A scheme: a letter followed by letters, digits, [+], [-] and [.]. *)
Definition scheme_char (c : ascii) : bool :=
  UrlParser.is_alnum c || Ascii.eqb c "+" || Ascii.eqb c "-" || Ascii.eqb c ".".

Definition is_scheme (s : string) : bool :=
  match s with
  | String c r => UrlParser.is_alpha c && forallb scheme_char (list_ascii_of_string r)
  | EmptyString => false
  end.

(** The text, once trimmed as the URL parser trims it, starts with a
    scheme and a colon. *)
Definition has_scheme (s : string) : Prop :=
  exists sch rest, UrlParser.preprocess s = sch +:+ ":" +:+ rest /\ is_scheme sch = true.

(** The byte [c] occurs in [s]. *)
Fixpoint occurs (c : ascii) (s : string) : bool :=
  match s with
  | EmptyString => false
  | String d r => Ascii.eqb d c || occurs c r
  end.

(** A graph with cycles and sharing: object 1 refers to itself and to the
    array 2, which refers back to 1, to the object 3 and to itself. *)
Definition cyclic_heap : heap :=
  <[1%positive := CObj [("self", VRef 1%positive); ("k", VRef 2%positive)]]>
  (<[2%positive := CArr [VRef 1%positive; VRef 3%positive; VRef 2%positive]]>
  (<[3%positive := CObj [("file_type", VStr "ZIP"); ("url", VStr "https://h/z.zip")]]> ∅)).

(** A graph with a cycle and no archive entry. *)
Definition barren_heap : heap :=
  <[1%positive := CObj [("next", VRef 2%positive)]]>
  (<[2%positive := CArr [VRef 1%positive; VRef 2%positive; VNull]]> ∅).

(** Number of nodes of a document. *)
Fixpoint jsize (t : json) : nat :=
  match t with
  | JArr ts => S (list_sum (map jsize ts))
  | JObj tps => S (list_sum (map (fun e => jsize (snd e)) tps))
  | _ => 1
  end.

(** Nothing below the reference [l] is a match: every tree it unfolds to
    is walked without a hit. *)
Definition barren (h : heap) (l : loc) : Prop :=
  forall t, unfolds h t (VRef l) -> forall path, walk t path = None.

(** The [seen] set while [walk] is at a node of [n] nodes: each reference
    in it is barren (it was walked to the end) or is an ancestor of the
    node (it unfolds to a larger tree). *)
Definition seen_ok (h : heap) (n : nat) (seen : gset loc) : Prop :=
  forall l, l ∈ seen -> forall t, unfolds h t (VRef l) ->
    (forall path, walk t path = None) \/ n < jsize t.

(** A step of the graph walk carries out a step of the tree walk: from a
    [seen] set satisfying [inv] it returns the tree walk's result and a
    larger set; when the result is null, everything added is [good]. *)
Definition simulates {B : Type} (good : loc -> Prop) (inv : gset loc -> Prop)
           (bt : option B) (bh : gset loc -> option (option B * gset loc)) : Prop :=
  forall s, inv s ->
    exists s', bh s = Some (bt, s') /\ s ⊆ s'
               /\ (bt = None -> forall l, l ∈ s' -> l ∉ s -> good l).

(** *** Notions for the further properties *)

(** The values a cell holds: the items of an array, the property values of
    an object. *)
Definition children (c : cell) : list value :=
  match c with
  | CArr items => items
  | CObj props => map snd props
  end.

(** The references [walk] can come to from [v]: [v] itself when it is a
    reference, and the references held by a cell already reached. *)
Inductive reach (h : heap) (v : value) : loc -> Prop :=
| reach_root (l : loc) : v = VRef l -> reach h v l
| reach_child (l l' : loc) (c : cell) :
    reach h v l -> h !! l = Some c -> In (VRef l') (children c) -> reach h v l'.

(** The cell passes the test of lines 49-54: an object (not an array) with
    a string [file_type] that is an archive type and a non-empty string
    [url]. *)
Definition qualifies (c : cell) : bool :=
  match c with
  | CObj props =>
      match match_hereH props "" with
      | Some _ => true
      | None => false
      end
  | CArr _ => false
  end.

(** The reference [l] was walked to the end within [S]: its cell does not
    qualify and everything it holds is in [S]. *)
Definition closed_at (h : heap) (S : gset loc) (l : loc) : Prop :=
  forall c, h !! l = Some c ->
    qualifies c = false /\ forall l', In (VRef l') (children c) -> l' ∈ S.

(** From [s] to [s']: [seen] grew, and what was added was walked to the
    end. *)
Definition walked (h : heap) (s s' : gset loc) : Prop :=
  s ⊆ s' /\ forall l, l ∈ s' -> l ∉ s -> closed_at h s' l.

(** The value, when a reference, is in the set. *)
Definition entered (S : gset loc) (v : value) : Prop :=
  forall l, v = VRef l -> l ∈ S.

(** Where every upstream request goes. *)
Definition upstream_base : string := UPSTREAM_HOST +:+ UPSTREAM_METADATA_PREFIX.

(** The URL with another query. *)
Definition with_query (u : URL) (q : string) : URL :=
  {| scheme := scheme u; authority := authority u; pathname := pathname u;
     query := Some q; fragment := fragment u |}.

(** The lines of a list written with a comma after each but the last. *)
Fixpoint with_commas (l : list string) : list string :=
  match l with
  | [] => []
  | [x] => [x]
  | x :: r => (x +:+ ",") :: with_commas r
  end.

(** A context value that is a string, a boolean, null or a number. *)
Definition scalar (v : json) : bool :=
  match v with
  | JNull | JBool _ | JStr _ => true
  | JNum lit => negb (occurs (ascii_of_nat 10) lit)
  | JArr _ | JObj _ => false
  end.

(** *** Notions for responses *)

(** The response is the 404 diagnostic for [message] and [context], field
    by field. *)
Definition diagnostic_response (message : string) (context : Context) (r : Response) : Prop :=
  status r = 404
  /\ headers r = [("content-type", "text/plain; charset=utf-8")]
  /\ body r = Some (unlines ["404 Not Found"; ""; message; ""; "Context:";
                             Stringify.stringify2 (JObj context)]).

(** The body of the response has [line] among its lines. *)
Definition body_has_line (r : Response) (line : string) : Prop :=
  exists before after, body r = Some (unlines (before ++ line :: after)).

(** The text consists of HTTP whitespace only. *)
Fixpoint all_whitespace (s : string) : bool :=
  match s with
  | EmptyString => true
  | String c r => Header.is_whitespace c && all_whitespace r
  end.

Definition starts_with_whitespace (s : string) : bool :=
  match s with
  | String c _ => Header.is_whitespace c
  | EmptyString => false
  end.

Fixpoint ends_with_whitespace (s : string) : bool :=
  match s with
  | EmptyString => false
  | String c EmptyString => Header.is_whitespace c
  | String _ r => ends_with_whitespace r
  end.

(** [t] is [s] without its leading and trailing HTTP whitespace. *)
Definition trimmed_of (s t : string) : Prop :=
  exists lead trail,
    s = lead +:+ t +:+ trail
    /\ all_whitespace lead = true /\ all_whitespace trail = true
    /\ starts_with_whitespace t = false /\ ends_with_whitespace t = false.

(** The text holds no NUL, line feed or carriage return. *)
Definition no_nul_cr_lf (s : string) : bool :=
  negb (occurs (ascii_of_nat 0) s || occurs (ascii_of_nat 10) s || occurs (ascii_of_nat 13) s).

(** * Properties *)

(** ** Strings *)

#[local] Arguments String.append !_ _ / : simpl nomatch.

Lemma app_nil_r (s : string) : s +:+ "" = s.
Proof. induction s as [|c s IH]; simpl; [reflexivity | now rewrite IH]. Qed.

Lemma app_assoc (a b c : string) : (a +:+ b) +:+ c = a +:+ (b +:+ c).
Proof. induction a as [|x a IH]; simpl; [reflexivity | now rewrite IH]. Qed.

Lemma length_app (a b : string) :
  String.length (a +:+ b) = String.length a + String.length b.
Proof. induction a as [|x a IH]; simpl; [reflexivity | now rewrite IH]. Qed.

Lemma startsWith_app (m r : string) : Str.startsWith m (m +:+ r) = true.
Proof.
  induction m as [|c m IH]; simpl; [reflexivity |].
  now rewrite Ascii.eqb_refl.
Qed.

Lemma startsWith_inv (m s : string) :
  Str.startsWith m s = true -> exists r, s = m +:+ r.
Proof.
  revert s; induction m as [|c m IH]; intros s H; simpl in *.
  - now exists s.
  - destruct s as [|d s]; [discriminate |].
    destruct (Ascii.eqb_spec c d) as [->|]; [| discriminate].
    destruct (IH _ H) as [r ->]. now exists r.
Qed.

Lemma slice_app (pre r : string) : Str.slice (String.length pre) (pre +:+ r) = r.
Proof. induction pre as [|c pre IH]; simpl; [now destruct r | exact IH]. Qed.

Lemma slice_0 (s : string) : Str.slice 0 s = s.
Proof. now destruct s. Qed.

(** [indexOf] finds the first occurrence. *)
Lemma indexOf_Some (m s : string) (i : nat) :
  Str.indexOf m s = Some i ->
  exists pre rest, first_occurrence m s pre rest /\ String.length pre = i.
Proof.
  revert i; induction s as [|c s IH]; intros i; simpl.
  - destruct (Str.startsWith m "") eqn:E; [| discriminate].
    intros [= <-]. apply startsWith_inv in E as [r E].
    exists "", r. repeat split; simpl; auto with arith.
  - destruct (Str.startsWith m (String c s)) eqn:E.
    + intros [= <-]. apply startsWith_inv in E as [r E].
      exists "", r. repeat split; simpl; auto with arith.
    + destruct (Str.indexOf m s) as [j|]; [| discriminate].
      intros [= <-]. destruct (IH j eq_refl) as (pre & rest & [Hs Hmin] & Hlen).
      exists (String c pre), rest. repeat split; simpl.
      * now rewrite Hs.
      * intros pre' rest' H'. destruct pre' as [|d pre'].
        -- simpl in H'. rewrite H', startsWith_app in E. discriminate.
        -- simpl in H'. injection H' as _ H'. simpl.
           specialize (Hmin _ _ H'). lia.
      * now rewrite Hlen.
Qed.

Lemma indexOf_None (m s : string) :
  Str.indexOf m s = None -> forall pre rest, s <> pre +:+ m +:+ rest.
Proof.
  induction s as [|c s IH]; simpl.
  - destruct (Str.startsWith m "") eqn:E; [discriminate |].
    intros _ pre rest H. destruct pre; simpl in H.
    + rewrite H, startsWith_app in E. discriminate.
    + discriminate.
  - destruct (Str.startsWith m (String c s)) eqn:E; [discriminate |].
    destruct (Str.indexOf m s) eqn:Ei; [discriminate |].
    intros _ pre rest H. destruct pre as [|d pre]; simpl in H.
    + rewrite H, startsWith_app in E. discriminate.
    + injection H as _ H. now apply (IH eq_refl pre rest).
Qed.

Lemma first_occurrence_unique (m s pre rest pre' rest' : string) :
  first_occurrence m s pre rest -> first_occurrence m s pre' rest' ->
  pre = pre' /\ rest = rest'.
Proof.
  intros [H1 M1] [H2 M2].
  assert (L : String.length pre = String.length pre').
  { specialize (M1 _ _ H2). specialize (M2 _ _ H1). lia. }
  clear M1 M2. subst s. revert pre' L H2.
  induction pre as [|c pre IH]; intros [|d pre'] L H; simpl in *; try discriminate.
  - split; [reflexivity |]. now apply (inj (String.app m)) in H.
  - injection H as -> H. destruct (IH pre') as [-> ->]; auto.
Qed.

Lemma first_occurrence_intro (m pre rest : string) :
  Str.indexOf m (pre +:+ m +:+ rest) = Some (String.length pre) ->
  first_occurrence m (pre +:+ m +:+ rest) pre rest.
Proof.
  intros H. destruct (indexOf_Some _ _ _ H) as (pre0 & rest0 & [_ Hmin] & Hlen).
  split; [reflexivity |]. intros pre' rest' H'. rewrite <- Hlen. now apply (Hmin pre' rest').
Qed.

Lemma indexOf_first_occurrence (m s pre rest : string) :
  first_occurrence m s pre rest -> Str.indexOf m s = Some (String.length pre).
Proof.
  intros F. destruct (Str.indexOf m s) as [i|] eqn:E.
  - destruct (indexOf_Some _ _ _ E) as (pre0 & rest0 & F0 & <-).
    now destruct (first_occurrence_unique _ _ _ _ _ _ F F0) as [-> _].
  - destruct F as [F _]. now apply indexOf_None with (pre := pre) (rest := rest) in E.
Qed.

(** A string that contains [m] has a first occurrence of it. *)
Lemma first_occurrence_exists (m s pre rest : string) :
  s = pre +:+ m +:+ rest -> exists pre0 rest0, first_occurrence m s pre0 rest0.
Proof.
  intros H. destruct (Str.indexOf m s) as [i|] eqn:E.
  - destruct (indexOf_Some _ _ _ E) as (pre0 & rest0 & F0 & _). eauto.
  - now apply indexOf_None with (pre := pre) (rest := rest) in E.
Qed.

(** ** The upstream URL builder *)

Lemma search_shape (u : URL) :
  search u = "" \/ exists q, q <> "" /\ search u = String "?" q.
Proof.
  unfold search. destruct (query u) as [q|]; [| now left].
  destruct (String.eqb_spec q ""); [now left | right; now exists q].
Qed.

Lemma hash_shape (u : URL) :
  hash u = "" \/ exists f, f <> "" /\ hash u = String "#" f.
Proof.
  unfold hash. destruct (fragment u) as [f|]; [| now left].
  destruct (String.eqb_spec f ""); [now left | right; now exists f].
Qed.

(** Assigning one URL's [search] to another makes the getters agree. *)
Lemma search_set_search (i u : URL) : search (set_search (search i) u) = search i.
Proof.
  destruct (search_shape i) as [E | (q & Hq & E)]; rewrite E; unfold search; simpl.
  - reflexivity.
  - now apply String.eqb_neq in Hq as ->.
Qed.

Lemma hash_set_hash (i u : URL) : hash (set_hash (hash i) u) = hash i.
Proof.
  destruct (hash_shape i) as [E | (f & Hf & E)]; rewrite E; unfold hash; simpl.
  - reflexivity.
  - now apply String.eqb_neq in Hf as ->.
Qed.

(** The serialisation of a URL whose query and fragment were assigned from
    [search] and [hash] strings ends in exactly these strings. *)
Lemma href_assigned (i u : URL) :
  href (set_hash (hash i) (set_search (search i) u))
  = scheme u +:+ "://" +:+ authority u +:+ pathname u +:+ search i +:+ hash i.
Proof.
  unfold href; simpl. do 3 f_equal.
  destruct (search_shape i) as [E | (q & Hq & E)],
           (hash_shape i) as [E' | (f & Hf & E')]; rewrite E, E'; simpl; reflexivity.
Qed.

(** [UPSTREAM_HOST_URL] is [UPSTREAM_HOST] as the URL parser reads it:
    scheme [https], authority [jbangdev.github.io], and the path [/] every
    URL with a host has. *)
Example UPSTREAM_HOST_parsed :
  UrlParser.split_scheme (UrlParser.preprocess UPSTREAM_HOST)
  = Some (scheme UPSTREAM_HOST_URL, "//" +:+ authority UPSTREAM_HOST_URL)
  /\ UrlParser.authority_text "https" ("//" +:+ authority UPSTREAM_HOST_URL)
     = Some (authority UPSTREAM_HOST_URL)
  /\ href UPSTREAM_HOST_URL = UPSTREAM_HOST +:+ "/".
Proof. repeat split. Qed.

(** C2. When the inbound path contains [/metadata/], the builder returns
    the URL with the fixed scheme and host https://jbangdev.github.io,
    whatever the inbound scheme and host, with path [/jdkdb-data/metadata/]
    followed by everything after the first occurrence of the marker, and
    with the inbound [search] and [hash] unchanged; a path that contains the
    marker has such a first occurrence, and later occurrences play no role;
    without the marker the builder returns null. *)
Theorem buildUpstreamMetadataUrl_correct (inbound : URL) :
  (forall pre rest,
      first_occurrence "/metadata/" (pathname inbound) pre rest ->
      exists upstream,
        buildUpstreamMetadataUrl inbound = Some upstream
        /\ scheme upstream = "https"
        /\ authority upstream = "jbangdev.github.io"
        /\ pathname upstream = "/jdkdb-data/metadata/" +:+ rest
        /\ search upstream = search inbound
        /\ hash upstream = hash inbound
        /\ href upstream
           = "https://jbangdev.github.io" +:+ "/jdkdb-data/metadata/" +:+ rest
             +:+ search inbound +:+ hash inbound)
  /\ ((exists pre rest, pathname inbound = pre +:+ "/metadata/" +:+ rest) ->
      exists pre rest, first_occurrence "/metadata/" (pathname inbound) pre rest)
  /\ ((forall pre rest, pathname inbound <> pre +:+ "/metadata/" +:+ rest) ->
      buildUpstreamMetadataUrl inbound = None).
Proof.
  split; [| split].
  - intros pre rest F. unfold buildUpstreamMetadataUrl.
    pose proof (indexOf_first_occurrence _ _ _ _ F) as E. fold marker in F.
    unfold marker in E |- *. rewrite E.
    assert (R : Str.slice (String.length pre + String.length "/metadata/") (pathname inbound) = rest).
    { destruct F as [-> _]. rewrite <- length_app, <- app_assoc. apply slice_app. }
    rewrite R. eexists; split; [reflexivity |].
    repeat split.
    + apply search_set_search.
    + unfold hash at 1; simpl. apply (hash_set_hash inbound UPSTREAM_HOST_URL).
    + rewrite href_assigned. simpl. reflexivity.
  - intros (pre & rest & H). now apply first_occurrence_exists in H.
  - intros H. unfold buildUpstreamMetadataUrl.
    destruct (Str.indexOf marker (pathname inbound)) as [i|] eqn:E; [| reflexivity].
    destruct (indexOf_Some _ _ _ E) as (pre & rest & [F _] & _).
    now destruct (H pre rest).
Qed.

Lemma buildUpstreamMetadataUrl_correct_witness :
  let inbound :=
    {| scheme := "http"; authority := "worker.example:8787";
       pathname := "/java/metadata/ga/metadata/x.json";
       query := Some "direct&a=1"; fragment := Some "top" |} in
  exists upstream,
    buildUpstreamMetadataUrl inbound = Some upstream
    /\ scheme upstream = "https"
    /\ authority upstream = "jbangdev.github.io"
    /\ pathname upstream = "/jdkdb-data/metadata/" +:+ "ga/metadata/x.json"
    /\ search upstream = search inbound
    /\ hash upstream = hash inbound
    /\ href upstream
       = "https://jbangdev.github.io" +:+ "/jdkdb-data/metadata/" +:+ "ga/metadata/x.json"
         +:+ search inbound +:+ hash inbound.
Proof.
  intros inbound.
  apply (proj1 (buildUpstreamMetadataUrl_correct inbound) "/java" "ga/metadata/x.json").
  apply (first_occurrence_intro "/metadata/" "/java" "ga/metadata/x.json").
  reflexivity.
Defined.

(** ** The traversal of a parsed document *)

(** Induction on documents, with the hypothesis for every item of an array
    and every entry of an object. *)
Lemma json_ind (P : json -> Prop)
  (Hnull : P JNull) (Hbool : forall b, P (JBool b))
  (Hnum : forall lit, P (JNum lit)) (Hstr : forall s, P (JStr s))
  (Harr : forall items, Forall P items -> P (JArr items))
  (Hobj : forall props, Forall (fun e => P (snd e)) props -> P (JObj props)) :
  forall v, P v.
Proof.
  fix IH 1. intros [| b | lit | s | items | props].
  - exact Hnull.
  - apply Hbool.
  - apply Hnum.
  - apply Hstr.
  - apply Harr. induction items as [|x items IHl]; constructor; [apply IH | exact IHl].
  - apply Hobj. induction props as [|e props IHl]; constructor; [apply IH | exact IHl].
Qed.

Section LoopFacts.
Context {A B C : Type}.

Lemma for_index_head (body : nat -> A -> option B) (g : C -> option B)
      (f : nat -> A -> list C) (l : list A) :
  Forall (fun x => forall i, body i x = head (omap g (f i x))) l ->
  forall i, for_index body i l = head (omap g (concat_index f i l)).
Proof.
  induction 1 as [|x l Hx _ IH]; intros i; simpl; [reflexivity |].
  rewrite omap_app, head_app, <- Hx, IH. now destruct (body i x).
Qed.

Lemma for_of_head (body : A -> option B) (g : C -> option B)
      (f : A -> list C) (l : list A) :
  Forall (fun x => body x = head (omap g (f x))) l ->
  for_of body l = head (omap g (flat_map f l)).
Proof.
  induction 1 as [|x l Hx _ IH]; simpl; [reflexivity |].
  rewrite omap_app, head_app, <- Hx, IH. now destruct (body x).
Qed.

End LoopFacts.

(** The test of the code on an object is the archive entry with a
    non-empty URL. *)
Lemma match_here_entry (props : list (string * json)) (path : string) :
  match_here props path = entry_match non_empty (path, JObj props).
Proof.
  unfold match_here, test_entry, entry_match, archive_entry, string_prop; simpl.
  destruct (get_prop "file_type" props) as [[| | |ft| |]|]; simpl; try reflexivity;
    destruct (get_prop "url" props) as [[| | |u| |]|]; simpl; try reflexivity.
  unfold targetTypes_has, non_empty; simpl.
  destruct (String.eqb_spec (Str.toLowerCase ft) "tar.gz") as [->|];
    [now destruct (String.eqb u "") |].
  destruct (String.eqb_spec (Str.toLowerCase ft) "zip") as [->|];
    [now destruct (String.eqb u "") |].
  simpl. now rewrite !andb_false_r.
Qed.

Lemma walk_preorder (node : json) :
  forall path, walk node path = head (omap (entry_match non_empty) (preorder node path)).
Proof.
  induction node as [| b | lit | s | items IH | props IH] using json_ind;
    intros path; try reflexivity.
  - simpl. apply for_index_head. eapply Forall_impl; [exact IH |].
    intros x Hx i. apply Hx.
  - cbn [walk preorder]. rewrite match_here_entry.
    cbn [omap list_omap]. fold (omap (M := list) (entry_match non_empty)).
    destruct (entry_match non_empty (path, JObj props)) as [hit|]; [reflexivity |].
    apply for_of_head. eapply Forall_impl; [exact IH |].
    intros e He. apply He.
Qed.

Lemma head_omap_None {A B : Type} (f : A -> option B) (l : list A) :
  head (omap f l) = None <-> forall x, In x l -> f x = None.
Proof.
  induction l as [|a l IH]; simpl.
  - split; [intros _ x [] | reflexivity].
  - destruct (f a) as [b|] eqn:E; simpl.
    + split; [discriminate |]. intros H. rewrite <- E. apply H. now left.
    + rewrite IH. split.
      * intros H x [<- | Hx]; auto.
      * intros H x Hx. apply H. now right.
Qed.

Lemma head_omap_Some {A B : Type} (f : A -> option B) (l : list A) (b : B) :
  head (omap f l) = Some b -> exists x, In x l /\ f x = Some b.
Proof.
  induction l as [|a l IH]; simpl; [discriminate |].
  destruct (f a) as [b'|] eqn:E; simpl.
  - intros [= <-]. exists a. auto.
  - intros H. destruct (IH H) as (x & Hx & Hf). exists x. auto.
Qed.

Lemma archive_entry_weaken (node : json) :
  archive_entry any_string node = None -> archive_entry non_empty node = None.
Proof.
  destruct node as [| | | | |props]; try reflexivity. simpl.
  destruct (get_prop "file_type" props) as [[| | |ft| |]|]; try reflexivity.
  destruct (get_prop "url" props) as [[| | |u| |]|]; try reflexivity.
  unfold any_string. rewrite andb_true_r.
  destruct (_ || _); [discriminate | reflexivity].
Qed.

Lemma archive_entry_type (url_ok : string -> bool) (node : json) (ft u : string) :
  archive_entry url_ok node = Some (ft, u) -> ft = "tar.gz" \/ ft = "zip".
Proof.
  destruct node as [| | | | |props]; try discriminate. simpl.
  destruct (get_prop "file_type" props) as [[| | |ft'| |]|]; try discriminate.
  destruct (get_prop "url" props) as [[| | |u'| |]|]; try discriminate.
  destruct (String.eqb_spec (Str.toLowerCase ft') "tar.gz") as [E|];
    [| destruct (String.eqb_spec (Str.toLowerCase ft') "zip") as [E|]];
    simpl; destruct (url_ok u'); try discriminate; intros [= <- _]; auto.
Qed.

(** ** The classifier *)

Lemma slice_suffix (n : nat) (s : string) : exists pre, s = pre +:+ Str.slice n s.
Proof.
  revert s; induction n as [|n IH]; intros s.
  - exists "". now rewrite slice_0.
  - destruct s as [|c s]; simpl.
    + now exists "".
    + destruct (IH s) as [pre E]. exists (String c pre). simpl. now rewrite <- E.
Qed.

Lemma endsWith_spec (p s : string) :
  Str.endsWith p s = true <-> exists pre, s = pre +:+ p.
Proof.
  unfold Str.endsWith. rewrite andb_true_iff, Nat.leb_le, String.eqb_eq. split.
  - intros [_ E]. destruct (slice_suffix (String.length s - String.length p) s) as [pre H].
    exists pre. now rewrite <- E.
  - intros [pre ->]. rewrite length_app. split; [lia |].
    replace (String.length pre + String.length p - String.length p) with (String.length pre) by lia.
    apply slice_app.
Qed.

Lemma toLowerCase_app (a b : string) :
  Str.toLowerCase (a +:+ b) = Str.toLowerCase a +:+ Str.toLowerCase b.
Proof. induction a as [|c a IH]; simpl; [reflexivity | now rewrite IH]. Qed.

Lemma toLowerCase_split (s x y : string) :
  Str.toLowerCase s = x +:+ y ->
  exists a b, s = a +:+ b /\ Str.toLowerCase a = x /\ Str.toLowerCase b = y.
Proof.
  revert s; induction x as [|c x IH]; intros s H.
  - exists "", s. auto.
  - destruct s as [|d s]; [discriminate |]. simpl in H. injection H as Hc H.
    destruct (IH _ H) as (a & b & -> & Ha & Hb).
    exists (String d a), b. simpl. now rewrite Hc, Ha.
Qed.

Lemma endsWith_ignoring_case (p s : string) :
  Str.endsWith p (Str.toLowerCase s) = true <-> ends_with_ignoring_case p s.
Proof.
  rewrite endsWith_spec. split.
  - intros [pre H]. apply toLowerCase_split in H as (a & b & -> & _ & Hb). now exists a, b.
  - intros (pre & suf & -> & <-). exists (Str.toLowerCase pre). apply toLowerCase_app.
Qed.

Lemma has_spec (name : string) (params : list (string * string)) :
  has name params = true <-> exists v, In (name, v) params.
Proof.
  unfold has. rewrite existsb_exists. split.
  - intros ([n v] & Hin & E). apply String.eqb_eq in E. simpl in E. subst n. now exists v.
  - intros [v Hin]. exists (name, v). split; [exact Hin | apply String.eqb_refl].
Qed.

Lemma isDirectJsonRequest_spec (u : URL) :
  isDirectJsonRequest u = true
  <-> has_param "direct" u /\ ends_with_ignoring_case ".json" (pathname u).
Proof.
  unfold isDirectJsonRequest, has_param.
  now rewrite andb_true_iff, has_spec, endsWith_ignoring_case.
Qed.

(** The three ways the handler starts. *)
Lemma fetch_no_marker (hp : bool -> string -> bool) (request : Request) :
  buildUpstreamMetadataUrl (req_url request) = None ->
  exists r, fetch hp request = Respond r /\ status r = 404.
Proof. intros E. unfold fetch. rewrite E. eexists; split; reflexivity. Qed.

Lemma fetch_pass_through (hp : bool -> string -> bool) (request : Request) (upstreamUrl : URL) :
  buildUpstreamMetadataUrl (req_url request) = Some upstreamUrl ->
  isDirectJsonRequest (req_url request) = false ->
  fetch hp request = PassThrough upstreamUrl request.
Proof. intros E D. unfold fetch. now rewrite E, D. Qed.

Lemma fetch_direct (hp : bool -> string -> bool) (request : Request) (upstreamUrl : URL) :
  buildUpstreamMetadataUrl (req_url request) = Some upstreamUrl ->
  isDirectJsonRequest (req_url request) = true ->
  fetch hp request
  = AwaitFetch (href (searchParams_delete "direct" upstreamUrl))
      {| init_method := "GET"; init_headers := [("accept", "application/json")] |}
      (resolve hp (req_url request) (searchParams_delete "direct" upstreamUrl)).
Proof. intros E D. unfold fetch. now rewrite E, D. Qed.

Lemma has_false (name : string) (u : URL) :
  has name (searchParams u) = false -> ~ has_param name u.
Proof.
  intros H Hp. apply has_spec in Hp. rewrite Hp in H. discriminate.
Qed.

(** C3, as the code has it.  [isDirectJsonRequest] holds exactly when the
    query has a parameter named [direct], whatever its value, and the path
    ends in [.json] when case is ignored.  A request whose path contains the
    [/metadata/] marker takes the direct-resolution path when the test
    holds and is passed through otherwise; a request without the marker is
    answered with the 404 diagnostic before it is classified. *)
Theorem direct_classification (hp : bool -> string -> bool) (request : Request) :
  (isDirectJsonRequest (req_url request) = true
   <-> has_param "direct" (req_url request)
       /\ ends_with_ignoring_case ".json" (pathname (req_url request)))
  /\ (forall upstreamUrl,
        buildUpstreamMetadataUrl (req_url request) = Some upstreamUrl ->
        (isDirectJsonRequest (req_url request) = true ->
         fetch hp request
         = AwaitFetch (href (searchParams_delete "direct" upstreamUrl))
             {| init_method := "GET"; init_headers := [("accept", "application/json")] |}
             (resolve hp (req_url request) (searchParams_delete "direct" upstreamUrl)))
        /\ (isDirectJsonRequest (req_url request) = false ->
            fetch hp request = PassThrough upstreamUrl request))
  /\ (buildUpstreamMetadataUrl (req_url request) = None ->
      exists r, fetch hp request = Respond r /\ status r = 404).
Proof.
  split; [apply isDirectJsonRequest_spec |]. split.
  - intros upstreamUrl E. split; intros D.
    + now apply fetch_direct.
    + now apply fetch_pass_through.
  - apply fetch_no_marker.
Qed.

Lemma direct_classification_witness :
  let request := get (worker_url "/java/metadata/ga/linux/x86_64/foo.JSON" (Some "direct")) in
  let upstreamUrl :=
    {| scheme := "https"; authority := "jbangdev.github.io";
       pathname := "/jdkdb-data/metadata/ga/linux/x86_64/foo.JSON";
       query := Some "direct"; fragment := None |} in
  fetch plain_host request
  = AwaitFetch (href (searchParams_delete "direct" upstreamUrl))
      {| init_method := "GET"; init_headers := [("accept", "application/json")] |}
      (resolve plain_host (req_url request) (searchParams_delete "direct" upstreamUrl)).
Proof.
  intros request upstreamUrl.
  exact (proj1 (proj1 (proj2 (direct_classification plain_host request)) upstreamUrl eq_refl)
               eq_refl).
Defined.

(** C3 as stated fails: a request that is not a direct one, but whose path
    lacks the marker, is not passed through. *)
Lemma not_direct_not_passed_through :
  isDirectJsonRequest (worker_url "/healthz" None) = false
  /\ fetch plain_host (get (worker_url "/healthz" None))
     = Respond
         (notFoundWithContext missing_marker_message
            [("requestUrl", JStr "https://worker.example/healthz");
             ("pathname", JStr "/healthz");
             ("expected",
              JStr "A path containing '/metadata/' (e.g. /java/metadata/ga/... or /metadata/ga/...)")]).
Proof. split; reflexivity. Qed.

(** The classifier on the three cases of the specification. *)
Example classifier_cases :
  isDirectJsonRequest (worker_url "/metadata/a.JSON" (Some "direct")) = true
  /\ isDirectJsonRequest (worker_url "/metadata/a.Json" (Some "x=1&direct=0")) = true
  /\ isDirectJsonRequest (worker_url "/metadata/a.xml" (Some "direct")) = false
  /\ isDirectJsonRequest (worker_url "/metadata/a.json" None) = false
  /\ isDirectJsonRequest (worker_url "/metadata/a.json" (Some "redirect=1")) = false.
Proof. repeat split. Qed.

(** C10.  The parameter name is matched exactly: a [.json] request whose
    query has a parameter named with another casing of [direct], and none
    named [direct], is not a direct-resolution request; when its path has
    the marker it is passed through. *)
Theorem direct_name_case_sensitive
        (hp : bool -> string -> bool) (request : Request) (name value : string) :
  ends_with_ignoring_case ".json" (pathname (req_url request)) ->
  In (name, value) (searchParams (req_url request)) ->
  name <> "direct" ->
  Str.toLowerCase name = "direct" ->
  ~ has_param "direct" (req_url request) ->
  isDirectJsonRequest (req_url request) = false
  /\ forall upstreamUrl,
       buildUpstreamMetadataUrl (req_url request) = Some upstreamUrl ->
       fetch hp request = PassThrough upstreamUrl request.
Proof.
  intros _ _ _ _ Hno.
  assert (D : isDirectJsonRequest (req_url request) = false).
  { destruct (isDirectJsonRequest (req_url request)) eqn:E; [| reflexivity].
    apply isDirectJsonRequest_spec in E as [Hp _]. contradiction. }
  split; [exact D |]. intros upstreamUrl E. now apply fetch_pass_through.
Qed.

Lemma direct_name_case_sensitive_witness :
  let request := get (worker_url "/metadata/ga/foo.json" (Some "Direct&DIRECT=1")) in
  isDirectJsonRequest (req_url request) = false
  /\ forall upstreamUrl,
       buildUpstreamMetadataUrl (req_url request) = Some upstreamUrl ->
       fetch plain_host request = PassThrough upstreamUrl request.
Proof.
  intros request.
  apply (direct_name_case_sensitive plain_host request "Direct" "").
  - exists "/metadata/ga/foo", ".json". split; reflexivity.
  - simpl. left. reflexivity.
  - discriminate.
  - reflexivity.
  - apply has_false. reflexivity.
Defined.

(** ** The 404 responder *)

Lemma join_indent (sep indent : string) (l : list string) :
  l <> [] ->
  indent +:+ Stringify.join (sep +:+ indent) l
  = Stringify.join sep (map (String.append indent) l).
Proof.
  induction l as [|x l IH]; [congruence |]. intros _.
  destruct l as [|y l]; [reflexivity |].
  change (Stringify.join (sep +:+ indent) (x :: y :: l))
    with (x +:+ (sep +:+ indent) +:+ Stringify.join (sep +:+ indent) (y :: l)).
  change (Stringify.join sep (map (String.append indent) (x :: y :: l)))
    with ((indent +:+ x) +:+ sep +:+ Stringify.join sep (map (String.append indent) (y :: l))).
  rewrite <- IH by congruence. now rewrite !app_assoc.
Qed.

Lemma serialize_object (gap indent : string) (e : string * json) (props : list (string * json)) :
  Stringify.serialize gap indent (JObj (e :: props))
  = "{" +:+ LF +:+ (indent +:+ gap)
    +:+ Stringify.join ("," +:+ LF +:+ (indent +:+ gap))
          (map (fun e => Stringify.quote (fst e) +:+ ": "
                         +:+ Stringify.serialize gap (indent +:+ gap) (snd e)) (e :: props))
    +:+ LF +:+ indent +:+ "}".
Proof. reflexivity. Qed.

(** A non-empty context is serialised with one entry per line, each
    indented by two spaces, between braces on lines of their own. *)
Lemma stringify2_context (e : string * json) (context : Context) :
  Stringify.stringify2 (JObj (e :: context))
  = "{" +:+ LF
    +:+ Stringify.join ("," +:+ LF) (map context_line (e :: context))
    +:+ LF +:+ "}".
Proof.
  unfold Stringify.stringify2. rewrite serialize_object.
  change ("" +:+ "  ") with "  ". change ("" +:+ "}") with "}".
  do 2 f_equal. rewrite <- !app_assoc. f_equal.
  rewrite join_indent by (simpl; congruence).
  rewrite map_map. reflexivity.
Qed.

(** C7.  The responder answers 404 with content type
    [text/plain; charset=utf-8]; the body is the line [404 Not Found], an
    empty line, the message, an empty line, the line [Context:] and the
    context as JSON indented by two spaces, each followed by a line feed. *)
Theorem notFoundWithContext_response (message : string) (context : Context) :
  status (notFoundWithContext message context) = 404
  /\ headers (notFoundWithContext message context)
     = [("content-type", "text/plain; charset=utf-8")]
  /\ body (notFoundWithContext message context)
     = Some (unlines ["404 Not Found"; ""; message; ""; "Context:";
                      Stringify.stringify2 (JObj context)])
  /\ Stringify.stringify2 (JObj context)
     = match context with
       | [] => "{}"
       | _ => "{" +:+ LF +:+ Stringify.join ("," +:+ LF) (map context_line context)
                  +:+ LF +:+ "}"
       end.
Proof.
  split; [reflexivity |]. split; [reflexivity |]. split; [reflexivity |].
  destruct context as [|e context]; [reflexivity | apply stringify2_context].
Qed.

(** ** The responses the handler constructs *)

(** The constructor on the header list of the redirect: the names and
    [no-store] are accepted as they are, so everything depends on the
    normalised [location]. *)
Lemma new_Response_redirect (location : string) :
  new_Response None 302 [("location", location); ("cache-control", "no-store")]
  = if Header.valid (Header.normalize location)
    then inr (redirect (Header.normalize location))
    else inl invalid_header.
Proof.
  unfold new_Response. cbn [Nat.leb negb andb Header.fill].
  change (Header.valid_name "location") with true.
  cbn [andb]. destruct (Header.valid (Header.normalize location)); reflexivity.
Qed.

(** The constructor on the header list of the diagnostic changes and
    refuses nothing: [notFoundWithContext] is what it returns. *)
Lemma new_Response_diagnostic (message : string) (context : Context) :
  new_Response (body (notFoundWithContext message context)) 404
    [("content-type", "text/plain; charset=utf-8")]
  = inr (notFoundWithContext message context).
Proof. reflexivity. Qed.

(** ** The direct-resolution path, stage by stage *)

Section DirectPath.

Variable hp : bool -> string -> bool.
Variable upstream : string -> FetchInit -> FetchResult.
Variable request : Request.
Variable upstreamUrl : URL.

Hypothesis Hmarker : buildUpstreamMetadataUrl (req_url request) = Some upstreamUrl.
Hypothesis Hdirect : isDirectJsonRequest (req_url request) = true.

Let fetched : URL := searchParams_delete "direct" upstreamUrl.
Let outcome : FetchResult := upstream (href fetched) json_init.

Lemma run_direct :
  run upstream (fetch hp request)
  = match resolve hp (req_url request) fetched outcome with
    | inr r => Answered r
    | inl err => Threw err
    end.
Proof. rewrite (fetch_direct hp request upstreamUrl Hmarker Hdirect). reflexivity. Qed.

Lemma run_rejected (err : Thrown) :
  outcome = Rejected err ->
  run upstream (fetch hp request)
  = Answered (notFoundWithContext "Upstream fetch failed."
                [("requestUrl", JStr (href (req_url request)));
                 ("upstreamUrl", JStr (href fetched));
                 ("error", JStr (describe err))]).
Proof. intros E. rewrite run_direct, E. reflexivity. Qed.

Lemma run_not_ok (res : UpstreamResponse) :
  outcome = Resolved res -> ok res = false ->
  run upstream (fetch hp request)
  = Answered (notFoundWithContext "Upstream returned non-OK status for JSON metadata."
                [("requestUrl", JStr (href (req_url request)));
                 ("upstreamUrl", JStr (href fetched));
                 ("upstreamStatus", JNum (Str.of_nat (up_status res)));
                 ("upstreamStatusText", JStr (up_statusText res));
                 ("upstreamContentType", opt_json (up_contentType res))]).
Proof. intros E O. rewrite run_direct, E. unfold resolve. now rewrite O. Qed.

Lemma run_bad_json (res : UpstreamResponse) (err : Thrown) :
  outcome = Resolved res -> ok res = true -> up_json res = inl err ->
  run upstream (fetch hp request)
  = Answered (notFoundWithContext "Upstream response was not valid JSON."
                [("requestUrl", JStr (href (req_url request)));
                 ("upstreamUrl", JStr (href fetched));
                 ("upstreamContentType", opt_json (up_contentType res));
                 ("error", JStr (describe err))]).
Proof. intros E O J. rewrite run_direct, E. unfold resolve. now rewrite O, J. Qed.

Lemma run_no_match (res : UpstreamResponse) (doc : json) :
  outcome = Resolved res -> ok res = true -> up_json res = inr doc ->
  findFirstDirectMatch doc = None ->
  run upstream (fetch hp request)
  = Answered (notFoundWithContext no_entry_message
                [("requestUrl", JStr (href (req_url request)));
                 ("upstreamUrl", JStr (href fetched))]).
Proof. intros E O J M. rewrite run_direct, E. unfold resolve. now rewrite O, J, M. Qed.

Lemma run_invalid_url (res : UpstreamResponse) (doc : json) (m : DirectMatch) :
  outcome = Resolved res -> ok res = true -> up_json res = inr doc ->
  findFirstDirectMatch doc = Some m ->
  UrlParser.isValidAbsoluteUrl hp (url m) = false ->
  run upstream (fetch hp request)
  = Answered (notFoundWithContext "Matched entry had an invalid URL."
                [("requestUrl", JStr (href (req_url request)));
                 ("upstreamUrl", JStr (href fetched));
                 ("match", JObj [("url", JStr (url m));
                                 ("fileType", JStr (fileType m));
                                 ("jsonPath", JStr (jsonPath m))])]).
Proof. intros E O J M V. rewrite run_direct, E. unfold resolve. now rewrite O, J, M, V. Qed.

Lemma run_redirect (res : UpstreamResponse) (doc : json) (m : DirectMatch) :
  outcome = Resolved res -> ok res = true -> up_json res = inr doc ->
  findFirstDirectMatch doc = Some m ->
  UrlParser.isValidAbsoluteUrl hp (url m) = true ->
  Header.valid (Header.normalize (url m)) = true ->
  run upstream (fetch hp request) = Answered (redirect (Header.normalize (url m))).
Proof.
  intros E O J M V H. rewrite run_direct, E. unfold resolve. rewrite O, J, M, V.
  cbn [negb]. now rewrite new_Response_redirect, H.
Qed.

Lemma run_throws (res : UpstreamResponse) (doc : json) (m : DirectMatch) :
  outcome = Resolved res -> ok res = true -> up_json res = inr doc ->
  findFirstDirectMatch doc = Some m ->
  UrlParser.isValidAbsoluteUrl hp (url m) = true ->
  Header.valid (Header.normalize (url m)) = false ->
  run upstream (fetch hp request) = Threw invalid_header.
Proof.
  intros E O J M V H. rewrite run_direct, E. unfold resolve. rewrite O, J, M, V.
  cbn [negb]. now rewrite new_Response_redirect, H.
Qed.

End DirectPath.

(** ** Failures, by example *)

(** The 404 for an upstream status 500, in full. *)
Example upstream_500 :
  run (upstream_serving foo_target (error_response 500 "Internal Server Error"))
      (fetch plain_host foo_request)
  = Answered
      {| status := 404;
         headers := [("content-type", "text/plain; charset=utf-8")];
         body := Some (unlines
           ["404 Not Found"; "";
            "Upstream returned non-OK status for JSON metadata."; "";
            "Context:";
            "{";
            "  " +:+ Stringify.quote "requestUrl" +:+ ": "
              +:+ Stringify.quote "https://worker.example/java/metadata/ga/linux/x86_64/foo.json?direct"
              +:+ ",";
            "  " +:+ Stringify.quote "upstreamUrl" +:+ ": " +:+ Stringify.quote foo_target +:+ ",";
            "  " +:+ Stringify.quote "upstreamStatus" +:+ ": 500,";
            "  " +:+ Stringify.quote "upstreamStatusText" +:+ ": "
              +:+ Stringify.quote "Internal Server Error" +:+ ",";
            "  " +:+ Stringify.quote "upstreamContentType" +:+ ": "
              +:+ Stringify.quote "text/html";
            "}"]) |}.
Proof. reflexivity. Qed.

(** An unreachable upstream, a body that is not JSON, and a path without
    the marker. *)
Example upstream_unreachable :
  run upstream_down (fetch plain_host foo_request)
  = Answered
      (notFoundWithContext "Upstream fetch failed."
         [("requestUrl",
           JStr "https://worker.example/java/metadata/ga/linux/x86_64/foo.json?direct");
          ("upstreamUrl", JStr foo_target);
          ("error", JStr "TypeError: fetch failed")]).
Proof. reflexivity. Qed.

Example upstream_not_json :
  run (upstream_serving foo_target (error_response 200 "OK")) (fetch plain_host foo_request)
  = Answered
      (notFoundWithContext "Upstream response was not valid JSON."
         [("requestUrl",
           JStr "https://worker.example/java/metadata/ga/linux/x86_64/foo.json?direct");
          ("upstreamUrl", JStr foo_target);
          ("upstreamContentType", JStr "text/html");
          ("error", JStr "SyntaxError: Unexpected token < in JSON at position 0")]).
Proof. reflexivity. Qed.

Example no_marker :
  forall upstream,
    run upstream (fetch plain_host (get (worker_url "/java/meta/foo.json" (Some "direct"))))
    = Answered
        (notFoundWithContext missing_marker_message
           [("requestUrl", JStr "https://worker.example/java/meta/foo.json?direct");
            ("pathname", JStr "/java/meta/foo.json");
            ("expected",
             JStr "A path containing '/metadata/' (e.g. /java/metadata/ga/... or /metadata/ga/...)")]).
Proof. reflexivity. Qed.

(** ** Validation of the matched URL *)

Lemma scheme_state_inv (s sch rest : string) :
  UrlParser.scheme_state s = Some (sch, rest) ->
  exists raw, s = raw +:+ ":" +:+ rest
              /\ forallb scheme_char (list_ascii_of_string raw) = true
              /\ sch = Str.toLowerCase raw.
Proof.
  revert sch; induction s as [|c s IH]; intros sch; simpl; [discriminate |].
  destruct (Ascii.eqb_spec c ":") as [->|_].
  - intros [= <- <-]. exists "". auto.
  - fold (scheme_char c). destruct (scheme_char c) eqn:Hc; [| discriminate].
    destruct (UrlParser.scheme_state s) as [[sch' rest']|]; [| discriminate].
    intros [= <- <-]. destruct (IH _ eq_refl) as (raw & -> & Hraw & ->).
    exists (String c raw). simpl. now rewrite Hc, Hraw.
Qed.

Lemma split_scheme_inv (s sch rest : string) :
  UrlParser.split_scheme s = Some (sch, rest) ->
  exists raw, s = raw +:+ ":" +:+ rest /\ is_scheme raw = true.
Proof.
  unfold UrlParser.split_scheme. destruct s as [|c s]; [discriminate |].
  destruct (UrlParser.is_alpha c) eqn:Ha; [| discriminate].
  intros H. destruct (scheme_state_inv _ _ _ H) as (raw & E & Hraw & _).
  exists raw. split; [exact E |].
  destruct raw as [|d raw]; simpl in E, Hraw.
  - injection E as -> _. discriminate.
  - injection E as <- _. simpl. rewrite Ha. simpl.
    now apply andb_true_iff in Hraw as [_ ->].
Qed.

(** A URL that [new URL] accepts has a scheme. *)
Lemma isValidAbsoluteUrl_has_scheme (hp : bool -> string -> bool) (s : string) :
  UrlParser.isValidAbsoluteUrl hp s = true -> has_scheme s.
Proof.
  unfold UrlParser.isValidAbsoluteUrl, UrlParser.parses.
  destruct (UrlParser.split_scheme (UrlParser.preprocess s)) as [[sch rest]|] eqn:E;
    [| discriminate].
  intros _. destruct (split_scheme_inv _ _ _ E) as (raw & H & Hs). now exists raw, rest.
Qed.

(** C6 as stated fails: [mailto:a@b] has a scheme and no authority, and
    the handler redirects to it, whatever the host parser. *)
Lemma redirect_without_authority :
  UrlParser.split_scheme (UrlParser.preprocess "mailto:a@b") = Some ("mailto", "a@b")
  /\ UrlParser.authority_text "mailto" "a@b" = None
  /\ run (upstream_serving foo_target (json_response (archive "zip" "mailto:a@b")))
         (fetch plain_host foo_request)
     = Answered {| status := 302;
                   headers := [("location", "mailto:a@b"); ("cache-control", "no-store")];
                   body := None |}
  /\ run (upstream_serving foo_target (json_response (archive "zip" "mailto:a@b")))
         (fetch (fun _ _ => false) foo_request)
     = Answered (redirect "mailto:a@b").
Proof. repeat split. Qed.

(** ** The urlencoded format: parsing inverts serialising *)

Ltac each_byte c := destruct c as [[] [] [] [] [] [] [] []].

Lemma decode_encode_byte (c : ascii) (r : string) :
  Form.decode (Form.encode_byte c +:+ r) = String c (Form.decode r).
Proof. each_byte c; reflexivity. Qed.

Lemma decode_encode (s : string) : Form.decode (Form.encode s) = s.
Proof.
  induction s as [|c s IH]; [reflexivity |].
  simpl. now rewrite decode_encode_byte, IH.
Qed.

Lemma occurs_app (c : ascii) (a b : string) :
  occurs c (a +:+ b) = occurs c a || occurs c b.
Proof. induction a as [|d a IH]; simpl; [reflexivity | now rewrite IH, orb_assoc]. Qed.

Lemma encode_byte_no_amp (c : ascii) : occurs "&" (Form.encode_byte c) = false.
Proof. each_byte c; reflexivity. Qed.

Lemma encode_byte_no_eq (c : ascii) : occurs "=" (Form.encode_byte c) = false.
Proof. each_byte c; reflexivity. Qed.

Lemma encode_no_amp (s : string) : occurs "&" (Form.encode s) = false.
Proof.
  induction s as [|c s IH]; [reflexivity |].
  simpl. now rewrite occurs_app, encode_byte_no_amp, IH.
Qed.

Lemma encode_no_eq (s : string) : occurs "=" (Form.encode s) = false.
Proof.
  induction s as [|c s IH]; [reflexivity |].
  simpl. now rewrite occurs_app, encode_byte_no_eq, IH.
Qed.

Lemma cut_app (sep : ascii) (a r : string) :
  occurs sep a = false -> Form.cut sep (a +:+ String sep r) = (a, r).
Proof.
  induction a as [|d a IH]; simpl.
  - intros _. now rewrite Ascii.eqb_refl.
  - intros H. apply orb_false_iff in H as [Hd Ha]. now rewrite Hd, (IH Ha).
Qed.

Lemma split_on_single (sep : ascii) (a : string) :
  occurs sep a = false -> Form.split_on sep a = [a].
Proof.
  induction a as [|d a IH]; simpl; [reflexivity |].
  intros H. apply orb_false_iff in H as [Hd Ha]. now rewrite Hd, (IH Ha).
Qed.

Lemma split_on_app (sep : ascii) (a r : string) :
  occurs sep a = false ->
  Form.split_on sep (a +:+ String sep r) = a :: Form.split_on sep r.
Proof.
  induction a as [|d a IH]; simpl.
  - intros _. now rewrite Ascii.eqb_refl.
  - intros H. apply orb_false_iff in H as [Hd Ha]. now rewrite Hd, (IH Ha).
Qed.

(** One serialised tuple: no [&], not empty, and parsed back to the tuple. *)
Lemma pair_no_amp (n v : string) :
  occurs "&" (Form.encode n +:+ "=" +:+ Form.encode v) = false.
Proof. now rewrite !occurs_app, !encode_no_amp. Qed.

Lemma pair_not_empty (n v : string) :
  String.eqb (Form.encode n +:+ "=" +:+ Form.encode v) "" = false.
Proof. apply String.eqb_neq. now destruct (Form.encode n). Qed.

Lemma parse_sequence_pair (n v : string) :
  Form.parse_sequence (Form.encode n +:+ "=" +:+ Form.encode v) = (n, v).
Proof.
  unfold Form.parse_sequence.
  change ("=" +:+ Form.encode v) with (String "=" (Form.encode v)).
  rewrite (cut_app "=" _ _ (encode_no_eq n)). now rewrite !decode_encode.
Qed.

Lemma parse_serialize (l : list (string * string)) :
  Form.parse (Form.serialize l) = l.
Proof.
  induction l as [|[n v] l IH]; [reflexivity |].
  destruct l as [|nv' l].
  - unfold Form.parse, Form.serialize.
    rewrite (split_on_single "&" _ (pair_no_amp n v)).
    cbn [List.filter]. rewrite pair_not_empty. cbn [negb map].
    now rewrite parse_sequence_pair.
  - change (Form.serialize ((n, v) :: nv' :: l))
      with (Form.encode n +:+ "=" +:+ Form.encode v +:+ "&" +:+ Form.serialize (nv' :: l)).
    assert (E : Form.encode n +:+ "=" +:+ Form.encode v +:+ "&" +:+ Form.serialize (nv' :: l)
                = (Form.encode n +:+ "=" +:+ Form.encode v)
                  +:+ String "&" (Form.serialize (nv' :: l)))
      by now rewrite !app_assoc.
    rewrite E. unfold Form.parse in *.
    rewrite (split_on_app "&" _ _ (pair_no_amp n v)).
    cbn [List.filter]. rewrite pair_not_empty. cbn [negb map].
    now rewrite parse_sequence_pair, IH.
Qed.

(** ** The upstream JSON fetch *)

(** Deleting a parameter leaves the list of the other parameters, in
    order, and touches nothing else of the URL. *)
Lemma searchParams_delete_params (name : string) (u : URL) :
  searchParams (searchParams_delete name u)
  = List.filter (fun p => negb (String.eqb (fst p) name)) (searchParams u).
Proof.
  unfold searchParams_delete. unfold searchParams at 1. simpl.
  set (l := List.filter _ (searchParams u)).
  destruct (String.eqb_spec (Form.serialize l) "") as [E|_]; simpl.
  - rewrite <- E. apply parse_serialize.
  - apply parse_serialize.
Qed.

Lemma has_filter_out (name : string) (params : list (string * string)) :
  has name (List.filter (fun p => negb (String.eqb (fst p) name)) params) = false.
Proof.
  induction params as [|[n v] params IH]; [reflexivity |]. simpl.
  destruct (String.eqb n name) eqn:E; simpl; [exact IH |]. now rewrite E.
Qed.

Lemma buildUpstreamMetadataUrl_params (inbound upstreamUrl : URL) :
  buildUpstreamMetadataUrl inbound = Some upstreamUrl ->
  searchParams upstreamUrl = searchParams inbound.
Proof.
  unfold buildUpstreamMetadataUrl.
  destruct (Str.indexOf marker (pathname inbound)); [| discriminate].
  intros [= <-]. unfold searchParams, search. simpl.
  destruct (query inbound) as [q|]; [| reflexivity].
  destruct (String.eqb_spec q "") as [->|]; reflexivity.
Qed.

(** C8.  On a direct request the handler awaits one fetch: a GET with the
    header [accept: application/json], of the computed upstream URL with
    every [direct] parameter removed; the other parameters, the scheme, the
    host, the path and the fragment are those of the computed URL. *)
Theorem direct_fetch_request
        (hp : bool -> string -> bool) (request : Request) (upstreamUrl : URL) :
  buildUpstreamMetadataUrl (req_url request) = Some upstreamUrl ->
  isDirectJsonRequest (req_url request) = true ->
  exists fetched k,
    fetch hp request
    = AwaitFetch (href fetched)
        {| init_method := "GET"; init_headers := [("accept", "application/json")] |} k
    /\ scheme fetched = scheme upstreamUrl
    /\ authority fetched = authority upstreamUrl
    /\ pathname fetched = pathname upstreamUrl
    /\ fragment fetched = fragment upstreamUrl
    /\ searchParams fetched
       = List.filter (fun p => negb (String.eqb (fst p) "direct")) (searchParams upstreamUrl)
    /\ has "direct" (searchParams fetched) = false
    /\ (forall n v, n <> "direct" ->
          (In (n, v) (searchParams fetched) <-> In (n, v) (searchParams (req_url request)))).
Proof.
  intros Hm Hd. exists (searchParams_delete "direct" upstreamUrl). eexists.
  split; [exact (fetch_direct hp request upstreamUrl Hm Hd) |].
  repeat (split; [reflexivity |]).
  split; [apply searchParams_delete_params |].
  rewrite searchParams_delete_params. split; [apply has_filter_out |].
  intros n v Hn. rewrite <- (buildUpstreamMetadataUrl_params _ _ Hm).
  rewrite filter_In. simpl. split; [tauto |].
  intros H. split; [exact H |]. now apply String.eqb_neq in Hn as ->.
Qed.

Lemma direct_fetch_request_witness :
  let request :=
    get (worker_url "/java/metadata/ga/foo.json" (Some "a=b%20c&direct&os=linux&direct=1")) in
  exists fetched k,
    fetch plain_host request
    = AwaitFetch (href fetched)
        {| init_method := "GET"; init_headers := [("accept", "application/json")] |} k
    /\ scheme fetched = "https"
    /\ authority fetched = "jbangdev.github.io"
    /\ pathname fetched = "/jdkdb-data/metadata/ga/foo.json"
    /\ fragment fetched = None
    /\ searchParams fetched
       = List.filter (fun p => negb (String.eqb (fst p) "direct"))
           [("a", "b c"); ("direct", ""); ("os", "linux"); ("direct", "1")]
    /\ has "direct" (searchParams fetched) = false
    /\ (forall n v, n <> "direct" ->
          (In (n, v) (searchParams fetched) <-> In (n, v) (searchParams (req_url request)))).
Proof.
  intros request.
  exact (direct_fetch_request plain_host request
           {| scheme := "https"; authority := "jbangdev.github.io";
              pathname := "/jdkdb-data/metadata/ga/foo.json";
              query := Some "a=b%20c&direct&os=linux&direct=1"; fragment := None |}
           eq_refl eq_refl).
Defined.

(** The fetched URL of that request: the remaining parameters are
    serialised anew. *)
Example direct_fetch_target :
  fetch plain_host
    (get (worker_url "/java/metadata/ga/foo.json" (Some "a=b%20c&direct&os=linux&direct=1")))
  = AwaitFetch "https://jbangdev.github.io/jdkdb-data/metadata/ga/foo.json?a=b+c&os=linux"
      json_init
      (resolve plain_host
         (worker_url "/java/metadata/ga/foo.json" (Some "a=b%20c&direct&os=linux&direct=1"))
         {| scheme := "https"; authority := "jbangdev.github.io";
            pathname := "/jdkdb-data/metadata/ga/foo.json";
            query := Some "a=b+c&os=linux"; fragment := None |}).
Proof. reflexivity. Qed.

(** ** Termination on object graphs *)

Section StateLoopFacts.
Context {A B : Type}.
Implicit Types (s : gset loc).

(** A loop whose body always returns, and only grows the set, returns and
    only grows the set. *)
Lemma for_index_st_total (body : nat -> A -> gset loc -> option (option B * gset loc))
      (seen0 : gset loc) (l : list A) :
  (forall i x s, seen0 ⊆ s -> exists r s', body i x s = Some (r, s') /\ s ⊆ s') ->
  forall i s, seen0 ⊆ s -> exists r s', for_index_st body i l s = Some (r, s') /\ s ⊆ s'.
Proof.
  intros Hbody. induction l as [|x l IH]; intros i s Hs; simpl.
  - exists None, s. auto.
  - destruct (Hbody i x s Hs) as (r & s1 & -> & Hs1). destruct r as [hit|].
    + exists (Some hit), s1. auto.
    + destruct (IH (S i) s1) as (r & s2 & E & Hs2); [set_solver |].
      exists r, s2. split; [exact E | set_solver].
Qed.

Lemma for_of_st_total (body : A -> gset loc -> option (option B * gset loc))
      (seen0 : gset loc) (l : list A) :
  (forall x s, seen0 ⊆ s -> exists r s', body x s = Some (r, s') /\ s ⊆ s') ->
  forall s, seen0 ⊆ s -> exists r s', for_of_st body l s = Some (r, s') /\ s ⊆ s'.
Proof.
  intros Hbody. induction l as [|x l IH]; intros s Hs; simpl.
  - exists None, s. auto.
  - destruct (Hbody x s Hs) as (r & s1 & -> & Hs1). destruct r as [hit|].
    + exists (Some hit), s1. auto.
    + destruct (IH s1) as (r & s2 & E & Hs2); [set_solver |].
      exists r, s2. split; [exact E | set_solver].
Qed.

End StateLoopFacts.

(** The cells not yet seen: what is left for [walk] to enter. *)
Lemma unseen_shrinks (h : heap) (l : loc) (seen s : gset loc) :
  l ∈ dom h -> l ∉ seen -> {[l]} ∪ seen ⊆ s ->
  size (dom h ∖ s) < size (dom h ∖ seen).
Proof.
  intros Hl Hn Hs. apply subset_size. split.
  - intros x Hx. apply elem_of_difference in Hx as [Hx1 Hx2].
    apply elem_of_difference. split; [exact Hx1 |].
    intros Hx3. apply Hx2, Hs, elem_of_union. now right.
  - intros Hsub. assert (Hin : l ∈ dom h ∖ seen) by (now apply elem_of_difference).
    apply Hsub, elem_of_difference in Hin as [_ Hin]. apply Hin, Hs, elem_of_union.
    left. now apply elem_of_singleton.
Qed.

(** With more fuel than unseen cells, [walk] returns, and can only have
    added to [seen]. *)
Lemma walkH_total (h : heap) (fuel : nat) :
  forall node path seen,
    size (dom h ∖ seen) < fuel ->
    exists r seen', walkH fuel h node path seen = Some (r, seen') /\ seen ⊆ seen'.
Proof.
  induction fuel as [|fuel IH]; intros node path seen Hfuel; [lia |].
  destruct node as [| | | | |l]; try (exists None, seen; split; [reflexivity | set_solver]).
  simpl. destruct (decide (l ∈ seen)) as [Hin|Hnot].
  - exists None, seen. split; [reflexivity | set_solver].
  - destruct (h !! l) as [[items|props]|] eqn:Hl.
    + destruct (for_index_st_total
                  (fun i x s => walkH fuel h x (index_path path i) s)
                  ({[l]} ∪ seen) items) with (i := 0) (s := {[l]} ∪ seen)
        as (r & s' & E & Hs'); [| set_solver |].
      * intros i x s Hs. apply IH.
        assert (Hd : l ∈ dom h) by (apply elem_of_dom; eauto).
        pose proof (unseen_shrinks h l seen s Hd Hnot Hs). lia.
      * exists r, s'. split; [exact E | set_solver].
    + destruct (match_hereH props path) as [hit|].
      * exists (Some hit), ({[l]} ∪ seen). split; [reflexivity | set_solver].
      * destruct (for_of_st_total
                    (fun e s => walkH fuel h (snd e) (key_path path (fst e)) s)
                    ({[l]} ∪ seen) props) with (s := {[l]} ∪ seen)
          as (r & s' & E & Hs'); [| set_solver |].
        -- intros x s Hs. apply IH.
           assert (Hd : l ∈ dom h) by (apply elem_of_dom; eauto).
           pose proof (unseen_shrinks h l seen s Hd Hnot Hs). lia.
        -- exists r, s'. split; [exact E | set_solver].
    + exists None, ({[l]} ∪ seen). split; [reflexivity | set_solver].
Qed.

Section FuelFacts.
Context {A B St : Type}.

Lemma for_index_st_mono (body body' : nat -> A -> St -> option (option B * St)) (l : list A) :
  (forall i x s r, body i x s = Some r -> body' i x s = Some r) ->
  forall i s r, for_index_st body i l s = Some r -> for_index_st body' i l s = Some r.
Proof.
  intros Hb. induction l as [|x l IH]; intros i s r; simpl; [auto |].
  destruct (body i x s) as [[[hit|] s1]|] eqn:E; try discriminate;
    rewrite (Hb _ _ _ _ E); auto.
Qed.

Lemma for_of_st_mono (body body' : A -> St -> option (option B * St)) (l : list A) :
  (forall x s r, body x s = Some r -> body' x s = Some r) ->
  forall s r, for_of_st body l s = Some r -> for_of_st body' l s = Some r.
Proof.
  intros Hb. induction l as [|x l IH]; intros s r; simpl; [auto |].
  destruct (body x s) as [[[hit|] s1]|] eqn:E; try discriminate;
    rewrite (Hb _ _ _ E); auto.
Qed.

End FuelFacts.

(** A result does not depend on the fuel that was enough to reach it. *)
Lemma walkH_fuel_S (h : heap) (fuel : nat) :
  forall node path seen r,
    walkH fuel h node path seen = Some r -> walkH (S fuel) h node path seen = Some r.
Proof.
  induction fuel as [|fuel IH]; intros node path seen r; [discriminate |].
  intros H. cbn [walkH] in H. change (walkH (S (S fuel)) h node path seen) with
    (match node with
     | VRef l =>
         if decide (l ∈ seen) then Some (None, seen)
         else
           match h !! l with
           | Some (CArr items) =>
               for_index_st (fun i x s => walkH (S fuel) h x (index_path path i) s) 0 items
                            ({[l]} ∪ seen)
           | Some (CObj props) =>
               match match_hereH props path with
               | Some hit => Some (Some hit, {[l]} ∪ seen)
               | None =>
                   for_of_st (fun e s => walkH (S fuel) h (snd e) (key_path path (fst e)) s)
                             props ({[l]} ∪ seen)
               end
           | None => Some (None, {[l]} ∪ seen)
           end
     | _ => Some (None, seen)
     end).
  destruct node as [| | | | |l]; try exact H.
  destruct (decide (l ∈ seen)); [exact H |].
  destruct (h !! l) as [[items|props]|]; [| | exact H].
  - revert H. apply for_index_st_mono. intros i x s r'. apply IH.
  - destruct (match_hereH props path); [exact H |].
    revert H. apply for_of_st_mono. intros x s r'. apply IH.
Qed.

Lemma walkH_fuel_le (h : heap) (fuel fuel' : nat) (node : value) (path : string)
      (seen : gset loc) (r : option DirectMatch * gset loc) :
  fuel <= fuel' ->
  walkH fuel h node path seen = Some r -> walkH fuel' h node path seen = Some r.
Proof.
  induction 1 as [|fuel' _ IH]; [auto |]. intros H. now apply walkH_fuel_S, IH.
Qed.

(** C9.  [findFirstDirectMatch] returns on every value of every object
    graph, cyclic or not: the fuel it is run with, one more than the number
    of cells, is never exhausted, and more fuel gives the same result.  A
    reference already in [seen] is left at once, with [seen] unchanged. *)
Theorem findFirstDirectMatchH_terminates (h : heap) (value : value) :
  (exists result, findFirstDirectMatchH h value = Some result)
  /\ (forall fuel, size h < fuel ->
        fst <$> walkH fuel h value "" ∅ = findFirstDirectMatchH h value)
  /\ (forall fuel l path seen,
        l ∈ seen -> walkH (S fuel) h (VRef l) path seen = Some (None, seen))
  /\ findFirstDirectMatchH cyclic_heap (VRef 1%positive)
     = Some (Some {| url := "https://h/z.zip"; fileType := "zip"; jsonPath := "k[1]" |})
  /\ findFirstDirectMatchH barren_heap (VRef 1%positive) = Some None.
Proof.
  assert (T : exists r seen', walkH (S (size h)) h value "" ∅ = Some (r, seen') /\ ∅ ⊆ seen').
  { apply walkH_total. rewrite difference_empty_L, size_dom. lia. }
  destruct T as (r & seen' & E & _).
  split; [| split; [| split; [| split]]].
  - exists r. unfold findFirstDirectMatchH. now rewrite E.
  - intros fuel Hf. unfold findFirstDirectMatchH.
    rewrite E, (walkH_fuel_le h (S (size h)) fuel value "" ∅ (r, seen')); auto with lia.
  - intros fuel l path seen Hl. simpl. now destruct (decide (l ∈ seen)).
  - vm_compute. reflexivity.
  - vm_compute. reflexivity.
Qed.

(** ** The tree walk is the graph walk on graphs without cycles *)

Section All2Facts.
Context {A B : Type}.

Lemma all2_impl (R R' : A -> B -> Prop) (P : A -> Prop) (l : list A) (l' : list B) :
  Forall P l -> all2 R l l' ->
  (forall x y, P x -> R x y -> R' x y) ->
  all2 R' l l'.
Proof.
  intros HP. revert l'. induction HP as [|x l Hx _ IH]; intros [|y l'] H HR; simpl in *; auto.
  destruct H as [Hxy H]. split; auto.
Qed.

End All2Facts.

(** Simulation of the loops: when each heap item carries out what its tree
    item does, so does the loop. *)
Section LoopSimulation.
Context {A A' B : Type}.
Variable good : loc -> Prop.
Variable inv : gset loc -> Prop.

Hypothesis inv_step :
  forall s s', inv s -> s ⊆ s' -> (forall l, l ∈ s' -> l ∉ s -> good l) -> inv s'.

Lemma for_index_st_sim (bt : nat -> A -> option B)
      (bh : nat -> A' -> gset loc -> option (option B * gset loc))
      (ts : list A) (vs : list A') :
  all2 (fun t v => forall i, simulates good inv (bt i t) (bh i v)) ts vs ->
  forall i, simulates good inv (for_index bt i ts) (for_index_st bh i vs).
Proof.
  revert vs. induction ts as [|t ts IH]; intros [|v vs] H i s Hs; simpl in *; try contradiction.
  - exists s. split; [reflexivity |]. split; [set_solver | intros _ l Hl Hn; contradiction].
  - destruct H as [Ht H]. destruct (Ht i s Hs) as (s1 & -> & Hs1 & Hgood).
    destruct (bt i t) as [hit|].
    + exists s1. split; [reflexivity |]. split; [exact Hs1 | discriminate].
    + specialize (Hgood eq_refl).
      destruct (IH vs H (S i) s1 (inv_step s s1 Hs Hs1 Hgood)) as (s2 & -> & Hs2 & Hgood2).
      exists s2. split; [reflexivity |]. split; [set_solver |].
      intros Hn l Hl Hnl. destruct (decide (l ∈ s1)); [now apply Hgood | now apply Hgood2].
Qed.

Lemma for_of_st_sim (bt : A -> option B)
      (bh : A' -> gset loc -> option (option B * gset loc))
      (ts : list A) (vs : list A') :
  all2 (fun t v => simulates good inv (bt t) (bh v)) ts vs ->
  simulates good inv (for_of bt ts) (for_of_st bh vs).
Proof.
  revert vs. induction ts as [|t ts IH]; intros [|v vs] H s Hs; simpl in *; try contradiction.
  - exists s. split; [reflexivity |]. split; [set_solver | intros _ l Hl Hn; contradiction].
  - destruct H as [Ht H]. destruct (Ht s Hs) as (s1 & -> & Hs1 & Hgood).
    destruct (bt t) as [hit|].
    + exists s1. split; [reflexivity |]. split; [exact Hs1 | discriminate].
    + specialize (Hgood eq_refl).
      destruct (IH vs H s1 (inv_step s s1 Hs Hs1 Hgood)) as (s2 & -> & Hs2 & Hgood2).
      exists s2. split; [reflexivity |]. split; [set_solver |].
      intros Hn l Hl Hnl. destruct (decide (l ∈ s1)); [now apply Hgood | now apply Hgood2].
Qed.

End LoopSimulation.

(** A graph value unfolds to at most one tree. *)
Lemma unfolds_functional (h : heap) (t : json) :
  forall t' v, unfolds h t v -> unfolds h t' v -> t = t'.
Proof.
  induction t as [| b | lit | s | ts IH | tps IH] using json_ind; intros t' v H H'.
  - simpl in H. subst v. destruct t'; simpl in H'; try discriminate; auto;
      destruct H' as (? & ? & ? & _); discriminate.
  - simpl in H. subst v. destruct t'; simpl in H'; try discriminate; try congruence;
      destruct H' as (? & ? & ? & _); discriminate.
  - simpl in H. subst v. destruct t'; simpl in H'; try discriminate; try congruence;
      destruct H' as (? & ? & ? & _); discriminate.
  - simpl in H. subst v. destruct t'; simpl in H'; try discriminate; try congruence;
      destruct H' as (? & ? & ? & _); discriminate.
  - simpl in H. destruct H as (l & vs & -> & Hl & Hall).
    destruct t' as [| | | | ts' | tps']; simpl in H'; try discriminate.
    + destruct H' as (l' & vs' & [= <-] & Hl' & Hall'). rewrite Hl in Hl'.
      injection Hl' as <-. f_equal.
      clear Hl. revert ts' vs Hall Hall'.
      induction IH as [|t ts Ht _ IHl]; intros [|t' ts'] [|v vs] Hall Hall';
        simpl in *; try contradiction; auto.
      destruct Hall as [Hv Hall], Hall' as [Hv' Hall'].
      f_equal; [exact (Ht _ _ Hv Hv') | exact (IHl _ _ Hall Hall')].
    + destruct H' as (l' & ps' & [= <-] & Hl' & _). congruence.
  - simpl in H. destruct H as (l & ps & -> & Hl & Hall).
    destruct t' as [| | | | ts' | tps']; simpl in H'; try discriminate.
    + destruct H' as (l' & vs' & [= <-] & Hl' & _). congruence.
    + destruct H' as (l' & ps' & [= <-] & Hl' & Hall'). rewrite Hl in Hl'.
      injection Hl' as <-. f_equal.
      clear Hl. revert tps' ps Hall Hall'.
      induction IH as [|[k t] tps Ht _ IHl]; intros [|[k' t'] tps'] [|[kv v] ps] Hall Hall';
        simpl in *; try contradiction; auto.
      destruct Hall as [[Hk Hv] Hall], Hall' as [[Hk' Hv'] Hall'].
      f_equal; [| exact (IHl _ _ Hall Hall')].
      f_equal; [congruence | exact (Ht _ _ Hv Hv')].
Qed.

(** Whether a tree has a match does not depend on the path it is reached
    by. *)
Section NoneFacts.
Context {A B : Type}.

Lemma for_index_None_ext (b b' : nat -> A -> option B) (l : list A) :
  Forall (fun x => forall i j, b i x = None -> b' j x = None) l ->
  forall i j, for_index b i l = None -> for_index b' j l = None.
Proof.
  induction 1 as [|x l Hx _ IH]; intros i j; simpl; [auto |].
  destruct (b i x) eqn:E; [discriminate |]. rewrite (Hx _ j E). apply IH.
Qed.

Lemma for_of_None_ext (b b' : A -> option B) (l : list A) :
  Forall (fun x => b x = None -> b' x = None) l ->
  for_of b l = None -> for_of b' l = None.
Proof.
  induction 1 as [|x l Hx _ IH]; simpl; [auto |].
  destruct (b x) eqn:E; [discriminate |]. now rewrite (Hx eq_refl).
Qed.

End NoneFacts.

Lemma test_entry_None_path (ft u : option string) (path path' : string) :
  test_entry ft u path = None -> test_entry ft u path' = None.
Proof.
  unfold test_entry. destruct (option_map Str.toLowerCase ft) as [f|]; [| auto].
  destruct u as [u|]; [| auto].
  now destruct (truthy (Some f) && truthy (Some u) && targetTypes_has f).
Qed.

Lemma walk_None_path (t : json) :
  forall path path', walk t path = None -> walk t path' = None.
Proof.
  induction t as [| b | lit | s | ts IH | tps IH] using json_ind;
    intros path path'; try reflexivity.
  - simpl. apply for_index_None_ext. eapply Forall_impl; [exact IH |].
    intros x Hx i j. apply Hx.
  - simpl. unfold match_here.
    destruct (test_entry _ _ path) eqn:E; [discriminate |].
    rewrite (test_entry_None_path _ _ _ path' E).
    apply for_of_None_ext. eapply Forall_impl; [exact IH |].
    intros x Hx. apply Hx.
Qed.

(** The property reads agree on an object and its unfolding. *)
Lemma string_prop_unfolds (h : heap) (k : string)
      (tps : list (string * json)) (ps : list (string * value)) :
  all2 (fun tp p => fst tp = fst p /\ unfolds h (snd tp) (snd p)) tps ps ->
  string_propH k ps = string_prop k tps.
Proof.
  unfold string_propH, string_prop. revert ps.
  induction tps as [|[kt t] tps IH]; intros [|[kv v] ps] H; simpl in *;
    try contradiction; [reflexivity |].
  destruct H as [[<- Hv] H]. destruct (String.eqb k kt); [| exact (IH _ H)].
  destruct t; simpl in Hv; try (subst v; reflexivity);
    destruct Hv as (l & ? & -> & _); reflexivity.
Qed.

Lemma jsize_pos (t : json) : 0 < jsize t.
Proof. destruct t; simpl; lia. Qed.

Lemma Forall_le_list_sum {A : Type} (f : A -> nat) (l : list A) :
  Forall (fun x => f x <= list_sum (map f l)) l.
Proof.
  induction l as [|x l IH]; constructor; simpl; [lia |].
  eapply Forall_impl; [exact IH |]. simpl. intros; lia.
Qed.

Lemma seen_ok_step (h : heap) (n : nat) (s s' : gset loc) :
  seen_ok h n s -> s ⊆ s' -> (forall l, l ∈ s' -> l ∉ s -> barren h l) -> seen_ok h n s'.
Proof.
  intros Hs _ Hnew l Hl t Ht. destruct (decide (l ∈ s)) as [Hin|Hout].
  - exact (Hs l Hin t Ht).
  - left. exact (Hnew l Hl Hout t Ht).
Qed.

Lemma seen_ok_enter (h : heap) (t : json) (l : loc) (m : nat) (s : gset loc) :
  unfolds h t (VRef l) -> m < jsize t -> seen_ok h (jsize t) s ->
  seen_ok h m ({[l]} ∪ s).
Proof.
  intros Ht Hm Hs l' Hl' t' Ht'. apply elem_of_union in Hl' as [Hl'|Hl'].
  - apply elem_of_singleton in Hl'. subst l'. right.
    now rewrite <- (unfolds_functional h t t' _ Ht Ht').
  - destruct (Hs l' Hl' t' Ht') as [Hb|Hlt]; [now left | right; lia].
Qed.

Lemma simulates_weaken {B : Type} (good : loc -> Prop) (inv inv' : gset loc -> Prop)
      (bt : option B) (bh : gset loc -> option (option B * gset loc)) :
  (forall s, inv' s -> inv s) -> simulates good inv bt bh -> simulates good inv' bt bh.
Proof. intros Hi H s Hs. exact (H s (Hi s Hs)). Qed.

Lemma seen_ok_le (h : heap) (n m : nat) (s : gset loc) :
  n <= m -> seen_ok h m s -> seen_ok h n s.
Proof.
  intros Hnm Hs l Hl t Ht. destruct (Hs l Hl t Ht) as [Hb|Hlt]; [now left | right; lia].
Qed.

Lemma entered_subseteq (l : loc) (s s' : gset loc) : {[l]} ∪ s ⊆ s' -> s ⊆ s'.
Proof. set_solver. Qed.

Lemma entered_new (l l' : loc) (s : gset loc) : l' ∈ {[l]} ∪ s -> l' ∉ s -> l' = l.
Proof.
  intros H Hn. apply elem_of_union in H as [H|H]; [| contradiction].
  now apply elem_of_singleton in H.
Qed.

Lemma entered_grows (l : loc) (s : gset loc) : s ⊆ {[l]} ∪ s.
Proof. set_solver. Qed.

(** On a value that unfolds to the tree [t], the graph walk carries out
    the tree walk. *)
Lemma walkH_unfolds_node (h : heap) (t : json) :
  forall fuel v path,
    unfolds h t v -> jsize t < fuel ->
    simulates (barren h) (seen_ok h (jsize t)) (walk t path) (walkH fuel h v path).
Proof.
  induction t as [| b | lit | s | ts IH | tps IH] using json_ind;
    intros fuel v path Hv Hfuel seen Hseen;
    (destruct fuel as [|fuel]; [pose proof (jsize_pos (JArr [])); simpl in *; lia |]).
  1-4: simpl in Hv; subst v; exists seen;
       (split; [reflexivity |]); (split; [reflexivity |]); intros _ l Hl Hn; contradiction.
  - pose proof Hv as Hv0. simpl in Hv. destruct Hv as (l & vs & -> & Hl & Hall).
    cbn [walkH]. destruct (decide (l ∈ seen)) as [Hin|Hout].
    + destruct (Hseen l Hin _ Hv0) as [Hb|Hlt]; [| lia].
      exists seen. rewrite (Hb path). split; [reflexivity |].
      split; [reflexivity | intros _ l' Hl' Hn; contradiction].
    + rewrite Hl. set (m := list_sum (map jsize ts)).
      assert (Hm : m < jsize (JArr ts)) by (simpl; fold m; lia).
      destruct (for_index_st_sim (barren h) (seen_ok h m) (seen_ok_step h m)
                  (fun i x => walk x (index_path path i))
                  (fun i x s => walkH fuel h x (index_path path i) s) ts vs)
        with (i := 0) (s := {[l]} ∪ seen) as (s' & E & Hs' & Hgood).
      * apply (all2_impl (unfolds h) _
                 (fun x => (forall fuel v path, unfolds h x v -> jsize x < fuel ->
                              simulates (barren h) (seen_ok h (jsize x))
                                        (walk x path) (walkH fuel h v path))
                           /\ jsize x <= m) ts vs); [| exact Hall |].
        -- apply Forall_and; split; [exact IH | apply Forall_le_list_sum].
        -- intros x y [Hx Hle] Hxy i.
           apply (simulates_weaken _ (seen_ok h (jsize x))); [intros s; now apply seen_ok_le |].
           apply Hx; [exact Hxy | simpl in Hfuel; fold m in Hfuel; lia].
      * exact (seen_ok_enter h (JArr ts) l m seen Hv0 Hm Hseen).
      * exists s'. split; [exact E |]. split; [exact (entered_subseteq l _ _ Hs') |].
        intros Hnone l' Hl' Hn. destruct (decide (l' ∈ ({[l]} ∪ seen))) as [Hin'|Hout'].
        -- assert (l' = l) by exact (entered_new l l' seen Hin' Hn). subst l'.
           intros t' Ht' path'.
           rewrite <- (unfolds_functional h _ t' _ Hv0 Ht').
           exact (walk_None_path _ path path' Hnone).
        -- exact (Hgood Hnone l' Hl' Hout').
  - pose proof Hv as Hv0. simpl in Hv. destruct Hv as (l & ps & -> & Hl & Hall).
    cbn [walkH]. destruct (decide (l ∈ seen)) as [Hin|Hout].
    + destruct (Hseen l Hin _ Hv0) as [Hb|Hlt]; [| lia].
      exists seen. rewrite (Hb path). split; [reflexivity |].
      split; [reflexivity | intros _ l' Hl' Hn; contradiction].
    + rewrite Hl. cbn [walk]. unfold match_hereH, match_here.
      rewrite !(string_prop_unfolds h _ tps ps Hall).
      destruct (test_entry _ _ path) as [hit|] eqn:Ehit.
      { exists ({[l]} ∪ seen). split; [reflexivity |].
        split; [apply entered_grows | discriminate]. }
      set (m := list_sum (map (fun e => jsize (snd e)) tps)).
      assert (Hm : m < jsize (JObj tps)) by (simpl; fold m; lia).
      destruct (for_of_st_sim (barren h) (seen_ok h m) (seen_ok_step h m)
                  (fun e => walk (snd e) (key_path path (fst e)))
                  (fun e s => walkH fuel h (snd e) (key_path path (fst e)) s) tps ps)
        with (s := {[l]} ∪ seen) as (s' & E & Hs' & Hgood).
      * apply (all2_impl (fun tp p => fst tp = fst p /\ unfolds h (snd tp) (snd p)) _
                 (fun e => (forall fuel v path, unfolds h (snd e) v -> jsize (snd e) < fuel ->
                              simulates (barren h) (seen_ok h (jsize (snd e)))
                                        (walk (snd e) path) (walkH fuel h v path))
                           /\ jsize (snd e) <= m) tps ps); [| exact Hall |].
        -- apply Forall_and; split; [exact IH |].
           apply (Forall_le_list_sum (fun e : string * json => jsize (snd e))).
        -- intros x y [Hx Hle] [Hk Hxy]. rewrite Hk.
           apply (simulates_weaken _ (seen_ok h (jsize (snd x))));
             [intros s; now apply seen_ok_le |].
           apply Hx; [exact Hxy | simpl in Hfuel; fold m in Hfuel; lia].
      * exact (seen_ok_enter h (JObj tps) l m seen Hv0 Hm Hseen).
      * exists s'. split; [exact E |]. split; [exact (entered_subseteq l _ _ Hs') |].
        intros Hnone l' Hl' Hn. destruct (decide (l' ∈ ({[l]} ∪ seen))) as [Hin'|Hout'].
        -- assert (l' = l) by exact (entered_new l l' seen Hin' Hn). subst l'.
           intros t' Ht' path'.
           rewrite <- (unfolds_functional h _ t' _ Hv0 Ht').
           apply (walk_None_path _ path path'). cbn [walk]. unfold match_here.
           now rewrite Ehit.
        -- exact (Hgood Hnone l' Hl' Hout').
Qed.

(** The graph walk of [findFirstDirectMatch] on a value without cycles
    below it, such as a freshly parsed document, is the tree walk of its
    unfolding: there the [seen] set changes no result. *)
Lemma walkH_unfolds (h : heap) (t : json) (v : value) :
  unfolds h t v -> findFirstDirectMatchH h v = Some (findFirstDirectMatch t).
Proof.
  intros Hv.
  destruct (walkH_unfolds_node h t (S (jsize t)) v "" Hv (Nat.lt_succ_diag_r _) ∅)
    as (s1 & E1 & _); [intros l Hl; now apply not_elem_of_empty in Hl |].
  destruct (walkH_total h (S (size h)) v "" ∅) as (r & s2 & E2 & _);
    [rewrite difference_empty_L, size_dom; lia |].
  unfold findFirstDirectMatchH, findFirstDirectMatch. rewrite E2. simpl. f_equal.
  pose proof (walkH_fuel_le h _ (S (jsize t) + S (size h)) _ _ _ _ (Nat.le_add_r _ _) E1) as F1.
  pose proof (walkH_fuel_le h (S (size h)) (S (jsize t) + S (size h)) _ _ _ _
                            ltac:(lia) E2) as F2.
  congruence.
Qed.

(** ** The first match of a parsed document *)

(** C1, as the code has it.  [findFirstDirectMatch] returns the first node
    of the pre-order traversal that is an object with a string [file_type]
    equal, ignoring case, to [tar.gz] or [zip] and a non-empty string [url],
    with the lower-cased type and the node's path; it returns null exactly
    when no node is such an object, in particular when no object has both
    fields as the claim describes them; on the example document the result
    is the second array element.  The walk with its [seen] set gives the same
    result on every graph that unfolds to the document. *)
Theorem findFirstDirectMatch_preorder (value : json) :
  findFirstDirectMatch value = first_in_preorder non_empty value
  /\ (forall m, findFirstDirectMatch value = Some m ->
        (fileType m = "tar.gz" \/ fileType m = "zip")
        /\ exists node, In (jsonPath m, node) (preorder value "")
                        /\ archive_entry non_empty node = Some (fileType m, url m))
  /\ (findFirstDirectMatch value = None <->
        forall path node, In (path, node) (preorder value "") ->
                          archive_entry non_empty node = None)
  /\ ((forall path node, In (path, node) (preorder value "") ->
                         archive_entry any_string node = None) ->
      findFirstDirectMatch value = None)
  /\ findFirstDirectMatch traversal_example
     = Some {| url := "http://h/f.tar.gz"; fileType := "tar.gz"; jsonPath := "a[1]" |}
  /\ (forall h v, unfolds h value v ->
        findFirstDirectMatchH h v = Some (first_in_preorder non_empty value)).
Proof.
  assert (E : findFirstDirectMatch value = first_in_preorder non_empty value)
    by apply walk_preorder.
  assert (N : findFirstDirectMatch value = None <->
              forall path node, In (path, node) (preorder value "") ->
                                archive_entry non_empty node = None).
  { rewrite E. unfold first_in_preorder. rewrite head_omap_None. split.
    - intros H path node Hin. specialize (H _ Hin). unfold entry_match in H. simpl in H.
      destruct (archive_entry non_empty node) as [[ft u]|]; [discriminate | reflexivity].
    - intros H [path node] Hin. unfold entry_match. simpl. now rewrite (H _ _ Hin). }
  split; [exact E |]. split; [| split; [exact N |]; split; [| split]].
  - intros m Hm. rewrite E in Hm. apply head_omap_Some in Hm as ([path node] & Hin & Hm).
    unfold entry_match in Hm. simpl in Hm.
    destruct (archive_entry non_empty node) as [[ft u]|] eqn:Ea; [| discriminate].
    injection Hm as <-. simpl. split; [exact (archive_entry_type _ _ _ _ Ea) |].
    exists node. auto.
  - intros H. apply N. intros path node Hin. apply archive_entry_weaken. eauto.
  - reflexivity.
  - intros h v Hv. rewrite <- E. now apply walkH_unfolds.
Qed.

(** C1 as stated fails: an object whose [url] is the empty string has a
    string [url] field, yet the code passes over it. *)
Lemma findFirstDirectMatch_empty_url :
  first_in_preorder any_string empty_url_example
  = Some {| url := ""; fileType := "zip"; jsonPath := "[0]" |}
  /\ findFirstDirectMatch empty_url_example
     = Some {| url := "https://h/a.zip"; fileType := "zip"; jsonPath := "[1]" |}.
Proof. split; reflexivity. Qed.

(** * Further properties *)

(** ** The graph walk and reachability *)

Lemma reach_via_child (h : heap) (l0 : loc) (c : cell) (x : value) (l : loc) :
  h !! l0 = Some c -> In x (children c) -> reach h x l -> reach h (VRef l0) l.
Proof.
  intros Hc Hx. induction 1 as [l -> | l l' c' _ IH Hl Hl'].
  - exact (reach_child h _ l0 l c (reach_root h _ l0 eq_refl) Hc Hx).
  - exact (reach_child h _ l l' c' IH Hl Hl').
Qed.

Section HitFacts.
Context {A B St : Type}.

(** A hit of a loop is a hit of its body on one of the elements. *)
Lemma for_index_st_hit (body : nat -> A -> St -> option (option B * St))
      (l : list A) (hit : B) :
  forall i s s', for_index_st body i l s = Some (Some hit, s') ->
  exists j x s0, In x l /\ body j x s0 = Some (Some hit, s').
Proof.
  induction l as [|x l IH]; intros i s s'; simpl; [discriminate |].
  destruct (body i x s) as [[[hit'|] s1]|] eqn:E; try discriminate.
  - intros [= <- <-]. exists i, x, s. auto.
  - intros H. destruct (IH _ _ _ H) as (j & y & s0 & Hy & Hb). exists j, y, s0. auto.
Qed.

Lemma for_of_st_hit (body : A -> St -> option (option B * St)) (l : list A) (hit : B) :
  forall s s', for_of_st body l s = Some (Some hit, s') ->
  exists x s0, In x l /\ body x s0 = Some (Some hit, s').
Proof.
  induction l as [|x l IH]; intros s s'; simpl; [discriminate |].
  destruct (body x s) as [[[hit'|] s1]|] eqn:E; try discriminate.
  - intros [= <- <-]. exists x, s. auto.
  - intros H. destruct (IH _ _ H) as (y & s0 & Hy & Hb). exists y, s0. auto.
Qed.

End HitFacts.

(** A match comes from a reachable object that passes the test at the
    path of the match. *)
Lemma walkH_hit_reachable (h : heap) (fuel : nat) :
  forall node path seen m s',
    walkH fuel h node path seen = Some (Some m, s') ->
    exists l props, reach h node l /\ h !! l = Some (CObj props)
                    /\ match_hereH props (jsonPath m) = Some m.
Proof.
  induction fuel as [|fuel IH]; intros node path seen m s'; [discriminate |].
  destruct node as [| | | | |l]; try discriminate.
  cbn [walkH]. destruct (decide (l ∈ seen)); [discriminate |].
  destruct (h !! l) as [[items|props]|] eqn:Hl; [| | discriminate].
  - intros H. apply for_index_st_hit in H as (j & x & s0 & Hx & Hb).
    destruct (IH _ _ _ _ _ Hb) as (l' & props & Hr & Hl' & Hm).
    exists l', props. split; [| auto].
    exact (reach_via_child h l (CArr items) x l' Hl Hx Hr).
  - destruct (match_hereH props path) as [hit|] eqn:Eh.
    + intros [= <- <-]. exists l, props. split; [now constructor |]. split; [exact Hl |].
      assert (P : jsonPath hit = path).
      { unfold match_hereH, test_entry in Eh.
        destruct (option_map _ _); [| discriminate].
        destruct (string_propH "url" props); [| discriminate].
        destruct (_ && _); [| discriminate]. now injection Eh as <-. }
      now rewrite P.
    + intros H. apply for_of_st_hit in H as ([k x] & s0 & Hx & Hb).
      destruct (IH _ _ _ _ _ Hb) as (l' & props' & Hr & Hl' & Hm).
      exists l', props'. split; [| auto].
      apply (reach_via_child h l (CObj props) x l' Hl); [| exact Hr].
      simpl. apply in_map_iff. exists (k, x). auto.
Qed.

Lemma closed_at_mono (h : heap) (S S' : gset loc) (l : loc) :
  S ⊆ S' -> closed_at h S l -> closed_at h S' l.
Proof.
  intros HS Hc c Hl. destruct (Hc c Hl) as [Hq Hch]. split; [exact Hq |].
  intros l' Hl'. apply HS, Hch, Hl'.
Qed.

Lemma walked_refl (h : heap) (s : gset loc) : walked h s s.
Proof. split; [reflexivity | intros l Hl Hn; contradiction]. Qed.

Lemma walked_trans (h : heap) (s1 s2 s3 : gset loc) :
  walked h s1 s2 -> walked h s2 s3 -> walked h s1 s3.
Proof.
  intros [H12 C12] [H23 C23]. split; [now transitivity s2 |].
  intros l Hl Hn. destruct (decide (l ∈ s2)) as [Hin|Hout].
  - exact (closed_at_mono h s2 s3 l H23 (C12 l Hin Hn)).
  - exact (C23 l Hl Hout).
Qed.

Section MissFacts.
Context {A B : Type}.
Variable h : heap.
Variable val : A -> value.

(** A loop without a hit ran its body, without a hit, on every element. *)
Lemma for_index_st_miss (body : nat -> A -> gset loc -> option (option B * gset loc))
      (l : list A) :
  (forall i x s s', In x l -> body i x s = Some (None, s') ->
                    walked h s s' /\ entered s' (val x)) ->
  forall i s s', for_index_st body i l s = Some (None, s') ->
                 walked h s s' /\ forall x, In x l -> entered s' (val x).
Proof.
  induction l as [|x l IH]; intros Hb i s s'; simpl.
  - intros [= <-]. split; [apply walked_refl | intros x []].
  - destruct (body i x s) as [[[hit|] s1]|] eqn:E; try discriminate.
    intros H. destruct (Hb i x s s1 (or_introl eq_refl) E) as [W1 E1].
    destruct (IH (fun i y s s' Hy => Hb i y s s' (or_intror Hy)) _ _ _ H) as [W2 E2].
    split; [exact (walked_trans h _ _ _ W1 W2) |].
    intros y [<- | Hy]; [| exact (E2 y Hy)].
    intros l' Hl'. apply (proj1 W2), (E1 l' Hl').
Qed.

Lemma for_of_st_miss (body : A -> gset loc -> option (option B * gset loc)) (l : list A) :
  (forall x s s', In x l -> body x s = Some (None, s') ->
                  walked h s s' /\ entered s' (val x)) ->
  forall s s', for_of_st body l s = Some (None, s') ->
               walked h s s' /\ forall x, In x l -> entered s' (val x).
Proof.
  induction l as [|x l IH]; intros Hb s s'; simpl.
  - intros [= <-]. split; [apply walked_refl | intros x []].
  - destruct (body x s) as [[[hit|] s1]|] eqn:E; try discriminate.
    intros H. destruct (Hb x s s1 (or_introl eq_refl) E) as [W1 E1].
    destruct (IH (fun y s s' Hy => Hb y s s' (or_intror Hy)) _ _ H) as [W2 E2].
    split; [exact (walked_trans h _ _ _ W1 W2) |].
    intros y [<- | Hy]; [| exact (E2 y Hy)].
    intros l' Hl'. apply (proj1 W2), (E1 l' Hl').
Qed.

End MissFacts.

Lemma walked_enter (h : heap) (l : loc) (seen s' : gset loc) :
  walked h ({[l]} ∪ seen) s' -> closed_at h s' l -> walked h seen s'.
Proof.
  intros [Hs Hc] Hl. split; [exact (entered_subseteq l _ _ Hs) |].
  intros l0 Hl0 Hn. destruct (decide (l0 = l)) as [->|Hne]; [exact Hl |].
  apply Hc; [exact Hl0 |]. intros Hin. apply elem_of_union in Hin as [Hin|Hin].
  - now apply elem_of_singleton in Hin.
  - contradiction.
Qed.

Lemma qualifies_path (props : list (string * value)) (path : string) :
  match_hereH props path = None -> qualifies (CObj props) = false.
Proof.
  intros H. unfold qualifies, match_hereH in *.
  now rewrite (test_entry_None_path _ _ path "" H).
Qed.

(** A walk without a hit leaves the node, and everything it added to
    [seen], walked to the end. *)
Lemma walkH_miss (h : heap) (fuel : nat) :
  forall node path seen s',
    walkH fuel h node path seen = Some (None, s') ->
    walked h seen s' /\ entered s' node.
Proof.
  induction fuel as [|fuel IH]; intros node path seen s'; [discriminate |].
  destruct node as [| | | | |l];
    try (intros [= <-]; split; [apply walked_refl | intros l [=]]).
  cbn [walkH]. destruct (decide (l ∈ seen)) as [Hin|Hout].
  { intros [= <-]. split; [apply walked_refl | now intros l' [= <-]]. }
  assert (Hself : forall S : gset loc, {[l]} ∪ seen ⊆ S -> entered S (VRef l)).
  { intros S HS l' [= <-]. apply HS, elem_of_union. left. now apply elem_of_singleton. }
  destruct (h !! l) as [[items|props]|] eqn:Hl.
  - intros H.
    destruct (for_index_st_miss h (fun x => x)
                (fun i x s => walkH fuel h x (index_path path i) s) items
                (fun i x s s1 _ Hb => IH _ _ _ _ Hb) _ _ _ H) as [W E].
    split; [| exact (Hself _ (proj1 W))].
    apply (walked_enter h l _ _ W). intros c Hc. rewrite Hl in Hc. injection Hc as <-.
    split; [reflexivity |]. intros l' Hl'. exact (E _ Hl' l' eq_refl).
  - destruct (match_hereH props path) eqn:Eh; [discriminate |]. intros H.
    destruct (for_of_st_miss h snd
                (fun e s => walkH fuel h (snd e) (key_path path (fst e)) s) props
                (fun x s s1 _ Hb => IH _ _ _ _ Hb) _ _ H) as [W E].
    split; [| exact (Hself _ (proj1 W))].
    apply (walked_enter h l _ _ W). intros c Hc. rewrite Hl in Hc. injection Hc as <-.
    split; [exact (qualifies_path props path Eh) |].
    intros l' Hl'. simpl in Hl'. apply in_map_iff in Hl' as (e & He & Hin).
    exact (E e Hin l' He).
  - intros [= <-]. split; [| apply Hself; reflexivity].
    apply (walked_enter h l); [apply walked_refl |].
    intros c Hc. rewrite Hl in Hc. discriminate.
Qed.

(** X1.  On every object graph, with or without cycles, [findFirstDirectMatch]
    returns null exactly when no object reachable from the value passes the
    test of lines 49-54: the [seen] guard never hides a match.  A returned
    match is that of a reachable object, tested at the path the match
    carries. *)
Theorem graph_walk_finds_a_reachable_match (h : heap) (v : value) :
  (findFirstDirectMatchH h v = Some None
   <-> forall l c, reach h v l -> h !! l = Some c -> qualifies c = false)
  /\ (forall m, findFirstDirectMatchH h v = Some (Some m) ->
        exists l props,
          reach h v l /\ h !! l = Some (CObj props)
          /\ match_hereH props (jsonPath m) = Some m
          /\ qualifies (CObj props) = true).
Proof.
  assert (Sound : forall m s', walkH (S (size h)) h v "" ∅ = Some (Some m, s') ->
            exists l props,
              reach h v l /\ h !! l = Some (CObj props)
              /\ match_hereH props (jsonPath m) = Some m
              /\ qualifies (CObj props) = true).
  { intros m s' H. destruct (walkH_hit_reachable h _ _ _ _ _ _ H) as (l & props & Hr & Hl & Hm).
    exists l, props. repeat split; auto.
    destruct (qualifies (CObj props)) eqn:Q; [reflexivity |].
    unfold qualifies in Q. destruct (match_hereH props "") eqn:E0; [discriminate |].
    unfold match_hereH in *. rewrite (test_entry_None_path _ _ "" (jsonPath m) E0) in Hm.
    discriminate. }
  destruct (walkH_total h (S (size h)) v "" ∅) as (r & s' & E & _);
    [rewrite difference_empty_L, size_dom; lia |].
  unfold findFirstDirectMatchH. rewrite E. simpl. split; [split |].
  - intros [= ->]. destruct (walkH_miss h _ _ _ _ _ E) as [[_ W] Hv].
    assert (In_s' : forall l, reach h v l -> l ∈ s').
    { induction 1 as [l Hl | l l' c _ IH Hl Hl']; [exact (Hv l Hl) |].
      exact (proj2 (W l IH (not_elem_of_empty l) c Hl) l' Hl'). }
    intros l c Hr Hl. exact (proj1 (W l (In_s' l Hr) (not_elem_of_empty l) c Hl)).
  - intros Hnone. destruct r as [m|]; [| reflexivity].
    destruct (Sound m s' E) as (l & props & Hr & Hl & _ & Q).
    rewrite (Hnone l _ Hr Hl) in Q. discriminate.
  - intros m [= ->]. exact (Sound m s' E).
Qed.

(** ** Where the handler sends requests *)

Lemma buildUpstreamMetadataUrl_shape (inbound upstreamUrl : URL) :
  buildUpstreamMetadataUrl inbound = Some upstreamUrl ->
  exists rest,
    upstreamUrl
    = set_hash (hash inbound)
        (set_search (search inbound)
           (set_pathname (UPSTREAM_METADATA_PREFIX +:+ rest) UPSTREAM_HOST_URL)).
Proof.
  unfold buildUpstreamMetadataUrl.
  destruct (Str.indexOf marker (pathname inbound)) as [idx|]; [| discriminate].
  intros [= <-]. eexists. reflexivity.
Qed.

Lemma href_under_prefix (u : URL) (rest : string) :
  scheme u = "https" -> authority u = "jbangdev.github.io" ->
  pathname u = UPSTREAM_METADATA_PREFIX +:+ rest ->
  exists tail, href u = upstream_base +:+ tail.
Proof.
  intros Hs Ha Hp. unfold href. rewrite Hs, Ha, Hp.
  exists (rest +:+ match query u with Some q => "?" +:+ q | None => "" end
               +:+ match fragment u with Some f => "#" +:+ f | None => "" end).
  unfold upstream_base, UPSTREAM_HOST, UPSTREAM_METADATA_PREFIX.
  rewrite !app_assoc. reflexivity.
Qed.

(** X2.  For a path without the marker the handler answers 404 at once and
    sends nothing upstream.  For a path with the marker it sends exactly one
    request, the forwarded one (which is the inbound request itself) or its
    own JSON fetch, and that request goes to a URL that begins with
    [https://jbangdev.github.io/jdkdb-data/metadata/]. *)
Theorem upstream_requests_stay_under_prefix (hp : bool -> string -> bool) (request : Request) :
  match buildUpstreamMetadataUrl (req_url request) with
  | None => exists r, fetch hp request = Respond r /\ status r = 404
  | Some _ =>
      match fetch hp request with
      | Respond _ => False
      | PassThrough upstreamUrl forwarded =>
          forwarded = request /\ exists tail, href upstreamUrl = upstream_base +:+ tail
      | AwaitFetch target init _ =>
          exists tail, target = upstream_base +:+ tail
      end
  end.
Proof.
  unfold fetch.
  destruct (buildUpstreamMetadataUrl (req_url request)) as [upstreamUrl|] eqn:E.
  - destruct (buildUpstreamMetadataUrl_shape _ _ E) as [rest ->].
    destruct (isDirectJsonRequest (req_url request)); simpl negb; cbv iota.
    + eapply href_under_prefix; reflexivity.
    + split; [reflexivity |]. eapply href_under_prefix; reflexivity.
  - eexists. split; reflexivity.
Qed.

(** ** What a redirect tells *)

Lemma strip_left_shape (s : string) :
  exists lead, s = lead +:+ Header.strip_left s
               /\ all_whitespace lead = true
               /\ starts_with_whitespace (Header.strip_left s) = false.
Proof.
  induction s as [|c s (lead & E & Hl & Hs)].
  - exists "". auto.
  - simpl. destruct (Header.is_whitespace c) eqn:Hc.
    + exists (String c lead). simpl. rewrite <- E, Hc. auto.
    + exists "". simpl. auto.
Qed.

Lemma strip_right_shape (s : string) :
  exists trail, s = Header.strip_right s +:+ trail
                /\ all_whitespace trail = true
                /\ ends_with_whitespace (Header.strip_right s) = false.
Proof.
  induction s as [|c s (trail & E & Ht & He)].
  - exists "". auto.
  - simpl. destruct (Header.strip_right s) as [|d r] eqn:Er.
    + simpl in E. subst trail. destruct (Header.is_whitespace c) eqn:Hc.
      * exists (String c s). simpl. rewrite Hc, Ht. auto.
      * exists s. simpl. rewrite Hc. auto.
    + exists trail. split; [now rewrite E at 1 |]. split; [exact Ht |].
      exact He.
Qed.

Lemma strip_right_start (s : string) :
  starts_with_whitespace s = false ->
  starts_with_whitespace (Header.strip_right s) = false.
Proof.
  destruct s as [|c s]; [reflexivity |]. simpl. intros Hc.
  destruct (Header.strip_right s); [now rewrite Hc | exact Hc].
Qed.

(** Normalising a header value removes its leading and trailing HTTP
    whitespace and nothing else. *)
Lemma normalize_trimmed (s : string) : trimmed_of s (Header.normalize s).
Proof.
  unfold Header.normalize.
  destruct (strip_left_shape s) as (lead & E & Hl & Hs).
  destruct (strip_right_shape (Header.strip_left s)) as (trail & E' & Ht & He).
  exists lead, trail. split; [now rewrite <- E', <- E |].
  repeat split; auto. now apply strip_right_start.
Qed.

Lemma strip_right_id (s : string) :
  ends_with_whitespace s = false -> Header.strip_right s = s.
Proof.
  induction s as [|c s IH]; [reflexivity |]. simpl. destruct s as [|d s].
  - intros ->. reflexivity.
  - intros H. rewrite (IH H). reflexivity.
Qed.

Lemma normalize_id (s : string) :
  starts_with_whitespace s = false -> ends_with_whitespace s = false ->
  Header.normalize s = s.
Proof.
  intros Hs He. unfold Header.normalize.
  assert (L : Header.strip_left s = s) by (destruct s; simpl in *; [| rewrite Hs]; reflexivity).
  rewrite L. now apply strip_right_id.
Qed.

Lemma forbidden_spec (c : ascii) :
  Header.forbidden c
  = Ascii.eqb c (ascii_of_nat 0) || Ascii.eqb c (ascii_of_nat 10) || Ascii.eqb c (ascii_of_nat 13).
Proof. each_byte c; reflexivity. Qed.

(** A header value is a text without NUL, line feed and carriage return. *)
Lemma valid_spec (v : string) : Header.valid v = no_nul_cr_lf v.
Proof.
  unfold Header.valid, no_nul_cr_lf. f_equal.
  induction v as [|c v IH]; [reflexivity |].
  simpl. rewrite IH, forbidden_spec.
  destruct (Ascii.eqb c _), (Ascii.eqb c _), (Ascii.eqb c _),
           (occurs _ v), (occurs _ v), (occurs _ v); reflexivity.
Qed.

(** X3.  When the handler itself answers 302 (rather than relaying the
    upstream's answer to a forwarded request), the request was a direct one
    with the marker, the upstream answered the JSON fetch with a 2xx status
    and a JSON body, and the [location] is the non-empty [url], without its
    leading and trailing HTTP whitespace, of an object of that document
    whose [file_type] is an archive type: the match of
    [findFirstDirectMatch].  That url parses as a URL, has a scheme, and
    once trimmed holds no NUL, line feed or carriage return. *)
Theorem redirect_comes_from_the_document
        (hp : bool -> string -> bool) (upstream : string -> FetchInit -> FetchResult)
        (request : Request) (r : Response) :
  run upstream (fetch hp request) = Answered r ->
  status r = 302 ->
  exists upstreamUrl res doc m node location,
    buildUpstreamMetadataUrl (req_url request) = Some upstreamUrl
    /\ isDirectJsonRequest (req_url request) = true
    /\ upstream (href (searchParams_delete "direct" upstreamUrl)) json_init = Resolved res
    /\ ok res = true
    /\ up_json res = inr doc
    /\ findFirstDirectMatch doc = Some m
    /\ In (jsonPath m, node) (preorder doc "")
    /\ archive_entry non_empty node = Some (fileType m, url m)
    /\ UrlParser.isValidAbsoluteUrl hp (url m) = true
    /\ has_scheme (url m)
    /\ trimmed_of (url m) location
    /\ no_nul_cr_lf location = true
    /\ r = {| status := 302;
              headers := [("location", location); ("cache-control", "no-store")];
              body := None |}.
Proof.
  unfold fetch.
  destruct (buildUpstreamMetadataUrl (req_url request)) as [upstreamUrl|] eqn:Hm;
    [| intros [= <-]; discriminate].
  destruct (isDirectJsonRequest (req_url request)) eqn:Hd; [| discriminate].
  simpl. unfold resolve.
  destruct (upstream _ _) as [err|res] eqn:Hu; [intros [= <-]; discriminate |].
  destruct (ok res) eqn:Ho; [| intros [= <-]; discriminate]. simpl.
  destruct (up_json res) as [err|doc] eqn:Hj; [intros [= <-]; discriminate |].
  destruct (findFirstDirectMatch doc) as [m|] eqn:Hf; [| intros [= <-]; discriminate].
  destruct (UrlParser.isValidAbsoluteUrl hp (url m)) eqn:Hv; [| intros [= <-]; discriminate].
  cbn [negb]. rewrite new_Response_redirect.
  destruct (Header.valid (Header.normalize (url m))) eqn:Hh; [| discriminate].
  intros [= <-] _.
  pose proof Hf as Hf'. unfold findFirstDirectMatch in Hf'. rewrite walk_preorder in Hf'.
  apply head_omap_Some in Hf' as ([path node] & Hin & He).
  unfold entry_match in He. simpl in He.
  destruct (archive_entry non_empty node) as [[ft u]|] eqn:Ha; [| discriminate].
  injection He as <-. simpl in *.
  exists upstreamUrl, res, doc, {| url := u; fileType := ft; jsonPath := path |}, node,
         (Header.normalize u).
  repeat split; auto.
  - exact (isValidAbsoluteUrl_has_scheme hp _ Hv).
  - apply normalize_trimmed.
  - now rewrite <- valid_spec.
Qed.

Lemma redirect_comes_from_the_document_witness :
  exists upstreamUrl res doc m node location,
    buildUpstreamMetadataUrl (req_url foo_request) = Some upstreamUrl
    /\ isDirectJsonRequest (req_url foo_request) = true
    /\ upstream_serving foo_target (json_response traversal_example)
         (href (searchParams_delete "direct" upstreamUrl)) json_init = Resolved res
    /\ ok res = true
    /\ up_json res = inr doc
    /\ findFirstDirectMatch doc = Some m
    /\ In (jsonPath m, node) (preorder doc "")
    /\ archive_entry non_empty node = Some (fileType m, url m)
    /\ UrlParser.isValidAbsoluteUrl plain_host (url m) = true
    /\ has_scheme (url m)
    /\ trimmed_of (url m) location
    /\ no_nul_cr_lf location = true
    /\ redirect "http://h/f.tar.gz"
       = {| status := 302;
            headers := [("location", location); ("cache-control", "no-store")];
            body := None |}.
Proof.
  apply (redirect_comes_from_the_document plain_host
           (upstream_serving foo_target (json_response traversal_example))
           foo_request (redirect "http://h/f.tar.gz")); reflexivity.
Defined.

(** ** The builder on its own output *)

(** X4.  The upstream URL is a fixed point of the builder: its path holds the
    marker first at the end of the upstream prefix, so mapping it again
    changes nothing.  A worker mounted in front of the upstream layout
    itself is transparent. *)
Theorem buildUpstreamMetadataUrl_idempotent (inbound upstreamUrl : URL) :
  buildUpstreamMetadataUrl inbound = Some upstreamUrl ->
  buildUpstreamMetadataUrl upstreamUrl = Some upstreamUrl.
Proof.
  intros E. destruct (buildUpstreamMetadataUrl_shape _ _ E) as [rest ->].
  unfold buildUpstreamMetadataUrl. cbn [pathname set_hash set_search set_pathname].
  assert (I : Str.indexOf marker (UPSTREAM_METADATA_PREFIX +:+ rest) = Some 11) by reflexivity.
  rewrite I.
  assert (R : Str.slice (11 + String.length marker) (UPSTREAM_METADATA_PREFIX +:+ rest) = rest)
    by reflexivity.
  rewrite R. f_equal. unfold set_hash, set_search, set_pathname. cbn [scheme authority pathname
    query fragment UPSTREAM_HOST_URL]. f_equal.
  - destruct (search_shape inbound) as [Es | (q & Hq & Es)]; rewrite Es.
    + reflexivity.
    + cbn. apply String.eqb_neq in Hq. unfold search. cbn. now rewrite Hq.
  - destruct (hash_shape inbound) as [Eh | (f & Hf & Eh)]; rewrite Eh.
    + reflexivity.
    + cbn. apply String.eqb_neq in Hf. unfold hash. cbn. now rewrite Hf.
Qed.

Lemma buildUpstreamMetadataUrl_idempotent_witness :
  buildUpstreamMetadataUrl foo_upstream = Some foo_upstream.
Proof.
  apply (buildUpstreamMetadataUrl_idempotent (req_url foo_request) foo_upstream).
  reflexivity.
Defined.

(** ** URLs that validation lets through without consulting the host *)

Lemma scheme_char_not_colon (c : ascii) : scheme_char c = true -> Ascii.eqb c ":" = false.
Proof. each_byte c; intros H; try discriminate H; reflexivity. Qed.

Lemma scheme_state_complete (raw rest : string) :
  forallb scheme_char (list_ascii_of_string raw) = true ->
  UrlParser.scheme_state (raw +:+ String ":" rest) = Some (Str.toLowerCase raw, rest).
Proof.
  induction raw as [|c raw IH]; intros H; [reflexivity |].
  simpl in H. apply andb_true_iff in H as [Hc Hraw].
  cbn [String.append UrlParser.scheme_state Str.toLowerCase].
  rewrite (scheme_char_not_colon c Hc). fold (scheme_char c). rewrite Hc.
  now rewrite (IH Hraw).
Qed.

Lemma split_scheme_complete (raw rest : string) :
  is_scheme raw = true ->
  UrlParser.split_scheme (raw +:+ String ":" rest) = Some (Str.toLowerCase raw, rest).
Proof.
  destruct raw as [|c raw]; [discriminate |]. intros H.
  pose proof H as H'. simpl in H'. apply andb_true_iff in H' as [Ha Hraw].
  unfold UrlParser.split_scheme. cbn [String.append]. rewrite Ha.
  apply (scheme_state_complete (String c raw) rest). simpl.
  rewrite Hraw, andb_true_r. unfold scheme_char, UrlParser.is_alnum. now rewrite Ha.
Qed.

Lemma not_special_not_file (sch : string) :
  UrlParser.is_special sch = false -> String.eqb sch "file" = false.
Proof.
  unfold UrlParser.is_special. simpl. intros H.
  apply orb_false_iff in H as [_ H]. now apply orb_false_iff in H as [H _].
Qed.

Lemma authority_text_opaque (sch rest : string) :
  UrlParser.is_special sch = false -> Str.startsWith "//" rest = false ->
  UrlParser.authority_text sch rest = None.
Proof.
  intros Hn Hr. unfold UrlParser.authority_text.
  rewrite (not_special_not_file _ Hn), Hn.
  destruct rest as [|a rest]; [reflexivity |].
  destruct (Ascii.eqb_spec a "/") as [->|Ha].
  - destruct rest as [|b rest]; [reflexivity |].
    destruct (Ascii.eqb_spec b "/") as [->|Hb]; [discriminate Hr |].
    each_byte b; try reflexivity. now destruct Hb.
  - each_byte a; try reflexivity. now destruct Ha.
Qed.

(** X5.  A string with a scheme that is not a special one, and without [//]
    after the colon, is accepted by [new URL] whatever follows and whatever
    the host parser: [mailto:], [data:], [javascript:] and the like.  A
    direct request whose first match carries such a URL, free of NUL, line
    feed and carriage return once trimmed, is redirected to it. *)
Theorem opaque_url_is_redirected_to
        (hp : bool -> string -> bool) (upstream : string -> FetchInit -> FetchResult)
        (request : Request) (upstreamUrl : URL)
        (res : UpstreamResponse) (doc : json) (m : DirectMatch) (raw rest : string) :
  buildUpstreamMetadataUrl (req_url request) = Some upstreamUrl ->
  isDirectJsonRequest (req_url request) = true ->
  upstream (href (searchParams_delete "direct" upstreamUrl)) json_init = Resolved res ->
  ok res = true ->
  up_json res = inr doc ->
  findFirstDirectMatch doc = Some m ->
  UrlParser.preprocess (url m) = raw +:+ ":" +:+ rest ->
  is_scheme raw = true ->
  UrlParser.is_special (Str.toLowerCase raw) = false ->
  Str.startsWith "//" rest = false ->
  no_nul_cr_lf (Header.normalize (url m)) = true ->
  UrlParser.isValidAbsoluteUrl hp (url m) = true
  /\ trimmed_of (url m) (Header.normalize (url m))
  /\ run upstream (fetch hp request)
     = Answered {| status := 302;
                   headers := [("location", Header.normalize (url m));
                               ("cache-control", "no-store")];
                   body := None |}.
Proof.
  intros Hm Hd E O J M P Hs Hn Hr Hh.
  assert (V : UrlParser.isValidAbsoluteUrl hp (url m) = true).
  { unfold UrlParser.isValidAbsoluteUrl, UrlParser.parses.
    change (raw +:+ ":" +:+ rest) with (raw +:+ String ":" rest) in P.
    rewrite P, (split_scheme_complete raw rest Hs), (not_special_not_file _ Hn).
    now rewrite (authority_text_opaque _ rest Hn Hr). }
  split; [exact V |]. split; [apply normalize_trimmed |].
  rewrite <- valid_spec in Hh.
  exact (run_redirect hp upstream request upstreamUrl Hm Hd res doc m E O J M V Hh).
Qed.

Lemma opaque_url_is_redirected_to_witness :
  UrlParser.isValidAbsoluteUrl (fun _ _ => false) "javascript:alert(1)" = true
  /\ trimmed_of "javascript:alert(1)" (Header.normalize "javascript:alert(1)")
  /\ run (upstream_serving foo_target (json_response (archive "zip" "javascript:alert(1)")))
         (fetch (fun _ _ => false) foo_request)
     = Answered {| status := 302;
                   headers := [("location", Header.normalize "javascript:alert(1)");
                               ("cache-control", "no-store")];
                   body := None |}.
Proof.
  apply (opaque_url_is_redirected_to (fun _ _ => false)
           (upstream_serving foo_target (json_response (archive "zip" "javascript:alert(1)")))
           foo_request foo_upstream
           (json_response (archive "zip" "javascript:alert(1)"))
           (archive "zip" "javascript:alert(1)")
           {| url := "javascript:alert(1)"; fileType := "zip"; jsonPath := "" |}
           "javascript" "alert(1)"); reflexivity.
Defined.

(** ** The [direct] parameter anywhere in the query *)

Lemma split_on_nonempty (sep : ascii) (s : string) : Form.split_on sep s <> [].
Proof.
  induction s as [|c s IH]; simpl; [discriminate |].
  destruct (Ascii.eqb c sep); [discriminate |].
  now destruct (Form.split_on sep s).
Qed.

Lemma split_on_sep_app (sep : ascii) (a b : string) :
  Form.split_on sep (a +:+ String sep b) = Form.split_on sep a ++ Form.split_on sep b.
Proof.
  induction a as [|c a IH]; simpl.
  - now rewrite Ascii.eqb_refl.
  - destruct (Ascii.eqb c sep); [now rewrite IH |].
    rewrite IH. pose proof (split_on_nonempty sep a).
    now destruct (Form.split_on sep a).
Qed.

Lemma parse_amp_app (a b : string) :
  Form.parse (a +:+ "&" +:+ b) = Form.parse a ++ Form.parse b.
Proof.
  unfold Form.parse. change ("&" +:+ b) with (String "&" b).
  now rewrite split_on_sep_app, List.filter_app, map_app.
Qed.

Lemma has_app (name : string) (l l' : list (string * string)) :
  has name (l ++ l') = has name l || has name l'.
Proof. apply existsb_app. Qed.

(** X6.  The parameters of a query [a&b] are those of [a] followed by those of
    [b], so a request is a direct one as soon as one part of its query,
    wherever it stands, makes it one: no other parameter can mask
    [direct]. *)
Theorem direct_anywhere_in_query (u : URL) (a b : string) :
  searchParams (with_query u (a +:+ "&" +:+ b))
  = searchParams (with_query u a) ++ searchParams (with_query u b)
  /\ isDirectJsonRequest (with_query u (a +:+ "&" +:+ b))
     = isDirectJsonRequest (with_query u a) || isDirectJsonRequest (with_query u b).
Proof.
  assert (P : searchParams (with_query u (a +:+ "&" +:+ b))
              = searchParams (with_query u a) ++ searchParams (with_query u b))
    by apply parse_amp_app.
  split; [exact P |].
  unfold isDirectJsonRequest. rewrite P, has_app. simpl pathname.
  now destruct (has "direct" (searchParams (with_query u a))),
               (has "direct" (searchParams (with_query u b))),
               (Str.endsWith ".json" (Str.toLowerCase (pathname u))).
Qed.

(** ** Context strings stay on their line *)

Lemma escape_one_line (c : ascii) : occurs (ascii_of_nat 10) (Stringify.escape c) = false.
Proof. each_byte c; reflexivity. Qed.

Lemma escape_all_one_line (s : string) :
  occurs (ascii_of_nat 10) (Stringify.escape_all s) = false.
Proof.
  induction s as [|c s IH]; [reflexivity |].
  simpl. now rewrite occurs_app, escape_one_line, IH.
Qed.

Lemma quote_one_line (s : string) : occurs (ascii_of_nat 10) (Stringify.quote s) = false.
Proof.
  unfold Stringify.quote. now rewrite !occurs_app, escape_all_one_line.
Qed.

Lemma unlines_app (a b : list string) : unlines (a ++ b) = unlines a +:+ unlines b.
Proof.
  induction a as [|x a IH]; [reflexivity |].
  cbn [unlines app]. now rewrite IH, !app_assoc.
Qed.

Lemma join_with_commas (l : list string) :
  l <> [] -> Stringify.join ("," +:+ LF) l +:+ LF = unlines (with_commas l).
Proof.
  induction l as [|x l IH]; [congruence |]. intros _.
  destruct l as [|y l].
  - cbn [Stringify.join with_commas unlines]. now rewrite app_nil_r.
  - change (Stringify.join ("," +:+ LF) (x :: y :: l))
      with (x +:+ ("," +:+ LF) +:+ Stringify.join ("," +:+ LF) (y :: l)).
    change (with_commas (x :: y :: l)) with ((x +:+ ",") :: with_commas (y :: l)).
    cbn [unlines]. rewrite <- IH by congruence. now rewrite !app_assoc.
Qed.

Lemma context_line_one_line (e : string * json) :
  scalar (snd e) = true -> occurs (ascii_of_nat 10) (context_line e) = false.
Proof.
  destruct e as [k v]. unfold context_line. simpl fst. simpl snd. intros H.
  rewrite !occurs_app, quote_one_line. simpl occurs at 1 2.
  destruct v as [| [] | lit | s | |]; try discriminate H; try reflexivity.
  - simpl in H. change (Stringify.serialize "  " "  " (JNum lit)) with lit.
    now apply negb_true_iff in H as ->.
  - change (Stringify.serialize "  " "  " (JStr s)) with (Stringify.quote s).
    now rewrite quote_one_line.
Qed.

Lemma with_commas_one_line (l : list string) :
  Forall (fun line => occurs (ascii_of_nat 10) line = false) l ->
  Forall (fun line => occurs (ascii_of_nat 10) line = false) (with_commas l).
Proof.
  induction 1 as [|x l Hx Hl IH]; [constructor |].
  destruct l as [|y l]; [now constructor |].
  change (with_commas (x :: y :: l)) with ((x +:+ ",") :: with_commas (y :: l)).
  constructor; [| exact IH]. now rewrite occurs_app, Hx.
Qed.

(** X7.  The body of a 404 with a non-empty context is the five heading lines,
    an opening brace, one line per context entry with commas between, and a
    closing brace.  When the values are strings, booleans, null or numbers,
    no such line contains a line feed, whatever bytes the strings hold: an
    error description or a URL cannot break the layout of the diagnostic. *)
Theorem diagnostic_body_lines (message : string) (context : Context) :
  context <> [] ->
  body (notFoundWithContext message context)
  = Some (unlines (["404 Not Found"; ""; message; ""; "Context:"; "{"]
                   ++ with_commas (map context_line context) ++ ["}"]))
  /\ (Forall (fun e => scalar (snd e) = true) context ->
      Forall (fun line => occurs (ascii_of_nat 10) line = false)
             (with_commas (map context_line context))).
Proof.
  intros Hne. split.
  - destruct context as [|e context]; [congruence |].
    unfold notFoundWithContext, body. f_equal.
    rewrite (stringify2_context e context), !unlines_app.
    rewrite <- (join_with_commas (map context_line (e :: context))) by discriminate.
    cbn [unlines]. now rewrite !app_assoc, !app_nil_r.
  - intros H. apply with_commas_one_line, Forall_map.
    eapply Forall_impl; [exact H |]. intros e. apply context_line_one_line.
Qed.

Lemma diagnostic_body_lines_witness :
  let context :=
    [("requestUrl", JStr "https://worker.example/metadata/a.json?direct");
     ("error", JStr ("TypeError: first line" +:+ LF +:+ "second line"));
     ("upstreamStatus", JNum "502"); ("upstreamContentType", JNull)] in
  body (notFoundWithContext "Upstream fetch failed." context)
  = Some (unlines (["404 Not Found"; ""; "Upstream fetch failed."; ""; "Context:"; "{"]
                   ++ with_commas (map context_line context) ++ ["}"]))
  /\ Forall (fun line => occurs (ascii_of_nat 10) line = false)
            (with_commas (map context_line context)).
Proof.
  intros context.
  destruct (diagnostic_body_lines "Upstream fetch failed." context) as [B L];
    [discriminate |].
  split; [exact B |]. apply L. repeat constructor.
Defined.

(** ** Encoded parameter names *)

(** X8.  The name of a parameter is compared after decoding: a query made of
    one parameter whose name decodes (plus signs, percent escapes) to
    [direct] makes a [.json] request a direct one, however the name is
    spelled. *)
Theorem direct_name_is_decoded (u : URL) (name value : string) :
  occurs "&" name = false ->
  occurs "=" name = false ->
  occurs "&" value = false ->
  Form.decode name = "direct" ->
  searchParams (with_query u (name +:+ "=" +:+ value)) = [("direct", Form.decode value)]
  /\ isDirectJsonRequest (with_query u (name +:+ "=" +:+ value))
     = Str.endsWith ".json" (Str.toLowerCase (pathname u)).
Proof.
  intros Hn He Hv Hd.
  assert (P : searchParams (with_query u (name +:+ "=" +:+ value))
              = [("direct", Form.decode value)]).
  { change (searchParams (with_query u (name +:+ "=" +:+ value)))
      with (Form.parse (name +:+ "=" +:+ value)).
    unfold Form.parse.
    assert (A : occurs "&" (name +:+ "=" +:+ value) = false)
      by (now rewrite !occurs_app, Hn, Hv).
    rewrite (split_on_single "&" _ A).
    cbn [List.filter].
    assert (N : String.eqb (name +:+ "=" +:+ value) "" = false)
      by (apply String.eqb_neq; now destruct name).
    rewrite N. cbn [negb map]. unfold Form.parse_sequence.
    change ("=" +:+ value) with (String "=" value).
    now rewrite (cut_app "=" name value He), Hd. }
  split; [exact P |]. unfold isDirectJsonRequest. now rewrite P.
Qed.

Lemma direct_name_is_decoded_witness :
  searchParams (with_query (worker_url "/metadata/a.JSON" None) ("%64ir%65ct" +:+ "=" +:+ "1"))
  = [("direct", Form.decode "1")]
  /\ isDirectJsonRequest
       (with_query (worker_url "/metadata/a.JSON" None) ("%64ir%65ct" +:+ "=" +:+ "1"))
     = Str.endsWith ".json" (Str.toLowerCase (pathname (worker_url "/metadata/a.JSON" None))).
Proof.
  apply (direct_name_is_decoded (worker_url "/metadata/a.JSON" None) "%64ir%65ct" "1");
    reflexivity.
Defined.

(** * The answers of the handler *)

Lemma notFoundWithContext_diagnostic (message : string) (context : Context) :
  diagnostic_response message context (notFoundWithContext message context).
Proof. repeat split. Qed.

Lemma notFoundWithContext_lines (message : string) (e : string * json) (context : Context) :
  body (notFoundWithContext message (e :: context))
  = Some (unlines (["404 Not Found"; ""; message; ""; "Context:"; "{"]
                   ++ with_commas (map context_line (e :: context)) ++ ["}"])).
Proof.
  unfold notFoundWithContext, body. f_equal.
  rewrite (stringify2_context e context), !unlines_app.
  rewrite <- (join_with_commas (map context_line (e :: context))) by discriminate.
  cbn [unlines]. now rewrite !app_assoc, !app_nil_r.
Qed.

(** ** Failures *)

(** C4.  Each failure of the taxonomy is answered by the handler itself,
    with a response and no exception, and the response is the 404
    diagnostic: status 404, the plain-text content type, and a body made of
    the heading, the message and the serialised context.  The failures are
    a path without the marker (the message names the missing [/metadata/]
    segment) and, on the direct path, a failed upstream fetch, a non-2xx
    upstream status (the context carries [upstreamStatus]; for a status 500
    the body has the line ["upstreamStatus": 500,]), a body that is not
    JSON, a document without a match, and a match whose URL does not
    parse. *)
Theorem failures_are_404
        (hp : bool -> string -> bool) (upstream : string -> FetchInit -> FetchResult)
        (request : Request) :
  (buildUpstreamMetadataUrl (req_url request) = None ->
   exists r,
     run upstream (fetch hp request) = Answered r
     /\ diagnostic_response
          "Request path did not contain a /metadata/ segment, so it could not be proxied."
          [("requestUrl", JStr (href (req_url request)));
           ("pathname", JStr (pathname (req_url request)));
           ("expected",
            JStr "A path containing '/metadata/' (e.g. /java/metadata/ga/... or /metadata/ga/...)")]
          r
     /\ body_has_line r
          "Request path did not contain a /metadata/ segment, so it could not be proxied.")
  /\ forall upstreamUrl,
       buildUpstreamMetadataUrl (req_url request) = Some upstreamUrl ->
       isDirectJsonRequest (req_url request) = true ->
       let requestUrl := JStr (href (req_url request)) in
       let fetchedUrl := JStr (href (searchParams_delete "direct" upstreamUrl)) in
       let outcome := upstream (href (searchParams_delete "direct" upstreamUrl)) json_init in
       (forall err, outcome = Rejected err ->
          exists r,
            run upstream (fetch hp request) = Answered r
            /\ diagnostic_response "Upstream fetch failed."
                 [("requestUrl", requestUrl); ("upstreamUrl", fetchedUrl);
                  ("error", JStr (describe err))] r)
       /\ (forall res, outcome = Resolved res -> ok res = false ->
             exists r,
               run upstream (fetch hp request) = Answered r
               /\ diagnostic_response "Upstream returned non-OK status for JSON metadata."
                    [("requestUrl", requestUrl); ("upstreamUrl", fetchedUrl);
                     ("upstreamStatus", JNum (Str.of_nat (up_status res)));
                     ("upstreamStatusText", JStr (up_statusText res));
                     ("upstreamContentType", opt_json (up_contentType res))] r
               /\ (up_status res = 500 ->
                   body_has_line r
                     ("  " +:+ Stringify.quote "upstreamStatus" +:+ ": 500,")))
       /\ (forall res err, outcome = Resolved res -> ok res = true -> up_json res = inl err ->
             exists r,
               run upstream (fetch hp request) = Answered r
               /\ diagnostic_response "Upstream response was not valid JSON."
                    [("requestUrl", requestUrl); ("upstreamUrl", fetchedUrl);
                     ("upstreamContentType", opt_json (up_contentType res));
                     ("error", JStr (describe err))] r)
       /\ (forall res doc, outcome = Resolved res -> ok res = true -> up_json res = inr doc ->
             findFirstDirectMatch doc = None ->
             exists r,
               run upstream (fetch hp request) = Answered r
               /\ diagnostic_response no_entry_message
                    [("requestUrl", requestUrl); ("upstreamUrl", fetchedUrl)] r)
       /\ (forall res doc m, outcome = Resolved res -> ok res = true -> up_json res = inr doc ->
             findFirstDirectMatch doc = Some m ->
             UrlParser.isValidAbsoluteUrl hp (url m) = false ->
             exists r,
               run upstream (fetch hp request) = Answered r
               /\ diagnostic_response "Matched entry had an invalid URL."
                    [("requestUrl", requestUrl); ("upstreamUrl", fetchedUrl);
                     ("match", JObj [("url", JStr (url m));
                                     ("fileType", JStr (fileType m));
                                     ("jsonPath", JStr (jsonPath m))])] r).
Proof.
  split.
  - intros E. unfold fetch. rewrite E. eexists. split; [reflexivity |].
    split; [apply notFoundWithContext_diagnostic |].
    exists ["404 Not Found"; ""], [""; "Context:"; Stringify.stringify2 (JObj
      [("requestUrl", JStr (href (req_url request)));
       ("pathname", JStr (pathname (req_url request)));
       ("expected",
        JStr "A path containing '/metadata/' (e.g. /java/metadata/ga/... or /metadata/ga/...)")])].
    reflexivity.
  - intros upstreamUrl Hm Hd requestUrl fetchedUrl outcome.
    split; [| split; [| split; [| split]]].
    + intros err E. eexists. split.
      * exact (run_rejected hp upstream request upstreamUrl Hm Hd err E).
      * apply notFoundWithContext_diagnostic.
    + intros res E O. eexists. split; [| split].
      * exact (run_not_ok hp upstream request upstreamUrl Hm Hd res E O).
      * apply notFoundWithContext_diagnostic.
      * intros H500. rewrite H500.
        exists (["404 Not Found"; "";
                 "Upstream returned non-OK status for JSON metadata."; ""; "Context:"; "{";
                 context_line ("requestUrl", requestUrl) +:+ ",";
                 context_line ("upstreamUrl", fetchedUrl) +:+ ","]),
               [context_line ("upstreamStatusText", JStr (up_statusText res)) +:+ ",";
                context_line ("upstreamContentType", opt_json (up_contentType res));
                "}"].
        rewrite notFoundWithContext_lines. reflexivity.
    + intros res err E O J. eexists. split.
      * exact (run_bad_json hp upstream request upstreamUrl Hm Hd res err E O J).
      * apply notFoundWithContext_diagnostic.
    + intros res doc E O J M. eexists. split.
      * exact (run_no_match hp upstream request upstreamUrl Hm Hd res doc E O J M).
      * apply notFoundWithContext_diagnostic.
    + intros res doc m E O J M V. eexists. split.
      * exact (run_invalid_url hp upstream request upstreamUrl Hm Hd res doc m E O J M V).
      * apply notFoundWithContext_diagnostic.
Qed.

Lemma failures_are_404_witness :
  exists r,
    run (upstream_serving foo_target (error_response 500 "Internal Server Error"))
        (fetch plain_host foo_request) = Answered r
    /\ diagnostic_response "Upstream returned non-OK status for JSON metadata."
         [("requestUrl", JStr (href (req_url foo_request)));
          ("upstreamUrl", JStr (href (searchParams_delete "direct" foo_upstream)));
          ("upstreamStatus", JNum (Str.of_nat 500));
          ("upstreamStatusText", JStr "Internal Server Error");
          ("upstreamContentType", opt_json (Some "text/html"))] r
    /\ body_has_line r ("  " +:+ Stringify.quote "upstreamStatus" +:+ ": 500,").
Proof.
  destruct (proj1 (proj2 (proj2 (failures_are_404 plain_host
              (upstream_serving foo_target (error_response 500 "Internal Server Error"))
              foo_request) foo_upstream eq_refl eq_refl))
            (error_response 500 "Internal Server Error") eq_refl eq_refl)
    as (r & Hr & Hd & Hl).
  exists r. split; [exact Hr |]. split; [exact Hd |]. exact (Hl eq_refl).
Defined.

(** ** The redirect *)

(** C5, as the code has it.  A direct request whose upstream document
    yields a match with a URL that [new URL] accepts is answered 302 with a
    null body, [cache-control: no-store] and a [location] that is the
    matched URL without its leading and trailing HTTP whitespace (tab, line
    feed, carriage return, space), provided what remains holds no NUL, line
    feed or carriage return.  A matched URL with no such whitespace at
    either end is the [location] byte for byte. *)
Theorem direct_match_redirects
        (hp : bool -> string -> bool) (upstream : string -> FetchInit -> FetchResult)
        (request : Request) (upstreamUrl : URL)
        (res : UpstreamResponse) (doc : json) (m : DirectMatch) :
  buildUpstreamMetadataUrl (req_url request) = Some upstreamUrl ->
  isDirectJsonRequest (req_url request) = true ->
  upstream (href (searchParams_delete "direct" upstreamUrl)) json_init = Resolved res ->
  ok res = true ->
  up_json res = inr doc ->
  findFirstDirectMatch doc = Some m ->
  UrlParser.isValidAbsoluteUrl hp (url m) = true ->
  no_nul_cr_lf (Header.normalize (url m)) = true ->
  trimmed_of (url m) (Header.normalize (url m))
  /\ run upstream (fetch hp request)
     = Answered {| status := 302;
                   headers := [("location", Header.normalize (url m));
                               ("cache-control", "no-store")];
                   body := None |}
  /\ (starts_with_whitespace (url m) = false ->
      ends_with_whitespace (url m) = false ->
      run upstream (fetch hp request)
      = Answered {| status := 302;
                    headers := [("location", url m); ("cache-control", "no-store")];
                    body := None |}).
Proof.
  intros Hm Hd E O J M V Hh. rewrite <- valid_spec in Hh.
  pose proof (run_redirect hp upstream request upstreamUrl Hm Hd res doc m E O J M V Hh) as R.
  split; [apply normalize_trimmed |]. split; [exact R |].
  intros Hs He. now rewrite (normalize_id (url m) Hs He) in R.
Qed.

Lemma direct_match_redirects_witness :
  run (upstream_serving foo_target
         (json_response (archive "zip" "https://dl.example/foo.zip")))
      (fetch plain_host foo_request)
  = Answered {| status := 302;
                headers := [("location", "https://dl.example/foo.zip");
                            ("cache-control", "no-store")];
                body := None |}.
Proof.
  exact (proj2 (proj2 (direct_match_redirects plain_host
           (upstream_serving foo_target
              (json_response (archive "zip" "https://dl.example/foo.zip")))
           foo_request foo_upstream
           (json_response (archive "zip" "https://dl.example/foo.zip"))
           (archive "zip" "https://dl.example/foo.zip")
           {| url := "https://dl.example/foo.zip"; fileType := "zip"; jsonPath := "" |}
           eq_refl eq_refl eq_refl eq_refl eq_refl eq_refl eq_refl eq_refl))
         eq_refl eq_refl).
Defined.

(** C5 as stated fails: the matched URL [ https://dl.example/foo.zip], with
    a space in front, is accepted by [new URL], and the [location] of the
    302 is that URL without the space, not the URL as found. *)
Lemma location_is_trimmed :
  findFirstDirectMatch (archive "zip" " https://dl.example/foo.zip")
  = Some {| url := " https://dl.example/foo.zip"; fileType := "zip"; jsonPath := "" |}
  /\ UrlParser.isValidAbsoluteUrl plain_host " https://dl.example/foo.zip" = true
  /\ run (upstream_serving foo_target
            (json_response (archive "zip" " https://dl.example/foo.zip")))
         (fetch plain_host foo_request)
     = Answered {| status := 302;
                   headers := [("location", "https://dl.example/foo.zip");
                               ("cache-control", "no-store")];
                   body := None |}
  /\ String.eqb "https://dl.example/foo.zip" " https://dl.example/foo.zip" = false.
Proof. repeat split. Qed.

(** C6, as the code has it.  For a direct request whose document yields a
    match, the handler answers 302 only when [new URL] accepts the matched
    URL, which then has a scheme (an authority is not required); when
    [new URL] rejects the matched URL, and so whenever it has no scheme,
    the answer is the 404 diagnostic whose context holds the request URL,
    the upstream URL and the whole match: url, fileType and jsonPath. *)
Theorem redirect_iff_url_parses
        (hp : bool -> string -> bool) (upstream : string -> FetchInit -> FetchResult)
        (request : Request) (upstreamUrl : URL)
        (res : UpstreamResponse) (doc : json) (m : DirectMatch) :
  buildUpstreamMetadataUrl (req_url request) = Some upstreamUrl ->
  isDirectJsonRequest (req_url request) = true ->
  upstream (href (searchParams_delete "direct" upstreamUrl)) json_init = Resolved res ->
  ok res = true ->
  up_json res = inr doc ->
  findFirstDirectMatch doc = Some m ->
  let invalid_url_context : Context :=
    [("requestUrl", JStr (href (req_url request)));
     ("upstreamUrl", JStr (href (searchParams_delete "direct" upstreamUrl)));
     ("match", JObj [("url", JStr (url m));
                     ("fileType", JStr (fileType m));
                     ("jsonPath", JStr (jsonPath m))])] in
  ((exists r, run upstream (fetch hp request) = Answered r /\ status r = 302) ->
   UrlParser.isValidAbsoluteUrl hp (url m) = true /\ has_scheme (url m))
  /\ (UrlParser.isValidAbsoluteUrl hp (url m) = false ->
      exists r,
        run upstream (fetch hp request) = Answered r
        /\ diagnostic_response "Matched entry had an invalid URL." invalid_url_context r)
  /\ (~ has_scheme (url m) ->
      exists r,
        run upstream (fetch hp request) = Answered r
        /\ diagnostic_response "Matched entry had an invalid URL." invalid_url_context r).
Proof.
  intros Hm Hd E O J M ctx.
  assert (Bad : UrlParser.isValidAbsoluteUrl hp (url m) = false ->
                exists r,
                  run upstream (fetch hp request) = Answered r
                  /\ diagnostic_response "Matched entry had an invalid URL." ctx r).
  { intros V. eexists. split.
    - exact (run_invalid_url hp upstream request upstreamUrl Hm Hd res doc m E O J M V).
    - apply notFoundWithContext_diagnostic. }
  split; [| split].
  - intros (r & Hr & Hs).
    destruct (UrlParser.isValidAbsoluteUrl hp (url m)) eqn:V.
    + split; [reflexivity | exact (isValidAbsoluteUrl_has_scheme hp _ V)].
    + destruct (Bad eq_refl) as (r' & Hr' & Hs' & _).
      rewrite Hr in Hr'. injection Hr' as <-. rewrite Hs in Hs'. discriminate.
  - exact Bad.
  - intros N. apply Bad.
    destruct (UrlParser.isValidAbsoluteUrl hp (url m)) eqn:V; [| reflexivity].
    destruct (N (isValidAbsoluteUrl_has_scheme hp _ V)).
Qed.

Lemma redirect_iff_url_parses_witness :
  exists r,
    run (upstream_serving foo_target (json_response (archive "zip" "not a url")))
        (fetch plain_host foo_request) = Answered r
    /\ diagnostic_response "Matched entry had an invalid URL."
         [("requestUrl", JStr (href (req_url foo_request)));
          ("upstreamUrl", JStr (href (searchParams_delete "direct" foo_upstream)));
          ("match", JObj [("url", JStr "not a url");
                          ("fileType", JStr "zip");
                          ("jsonPath", JStr "")])] r.
Proof.
  exact (proj1 (proj2 (redirect_iff_url_parses plain_host
           (upstream_serving foo_target (json_response (archive "zip" "not a url")))
           foo_request foo_upstream
           (json_response (archive "zip" "not a url"))
           (archive "zip" "not a url")
           {| url := "not a url"; fileType := "zip"; jsonPath := "" |}
           eq_refl eq_refl eq_refl eq_refl eq_refl eq_refl))
         eq_refl).
Defined.

(** ** When the handler throws *)

(** X9.  A direct request whose first match has a URL that [new URL]
    accepts, but which holds a NUL, a line feed or a carriage return once
    its leading and trailing HTTP whitespace is removed, gets no response
    from the handler: the [Response] constructor refuses the [location]
    value with a [TypeError], which nothing catches. *)
Theorem handler_throws_on_unsendable_location
        (hp : bool -> string -> bool) (upstream : string -> FetchInit -> FetchResult)
        (request : Request) (upstreamUrl : URL)
        (res : UpstreamResponse) (doc : json) (m : DirectMatch) :
  buildUpstreamMetadataUrl (req_url request) = Some upstreamUrl ->
  isDirectJsonRequest (req_url request) = true ->
  upstream (href (searchParams_delete "direct" upstreamUrl)) json_init = Resolved res ->
  ok res = true ->
  up_json res = inr doc ->
  findFirstDirectMatch doc = Some m ->
  UrlParser.isValidAbsoluteUrl hp (url m) = true ->
  no_nul_cr_lf (Header.normalize (url m)) = false ->
  (exists message, run upstream (fetch hp request) = Threw (ThrownError "TypeError" message))
  /\ forall r, run upstream (fetch hp request) <> Answered r.
Proof.
  intros Hm Hd E O J M V Hh. rewrite <- valid_spec in Hh.
  pose proof (run_throws hp upstream request upstreamUrl Hm Hd res doc m E O J M V Hh) as T.
  split; [now exists "Invalid header" |]. intros r. rewrite T. discriminate.
Qed.

(** A matched URL with a line feed inside: [new URL] drops the line feed
    and accepts the URL, the header value keeps it, and the constructor
    throws. *)
Lemma handler_throws_on_unsendable_location_witness :
  exists message,
    run (upstream_serving foo_target
           (json_response (archive "zip" ("https://dl.example/a" +:+ LF +:+ "b.zip"))))
        (fetch plain_host foo_request)
    = Threw (ThrownError "TypeError" message).
Proof.
  exact (proj1 (handler_throws_on_unsendable_location plain_host
           (upstream_serving foo_target
              (json_response (archive "zip" ("https://dl.example/a" +:+ LF +:+ "b.zip"))))
           foo_request foo_upstream
           (json_response (archive "zip" ("https://dl.example/a" +:+ LF +:+ "b.zip")))
           (archive "zip" ("https://dl.example/a" +:+ LF +:+ "b.zip"))
           {| url := "https://dl.example/a" +:+ LF +:+ "b.zip";
              fileType := "zip"; jsonPath := "" |}
           eq_refl eq_refl eq_refl eq_refl eq_refl eq_refl eq_refl eq_refl)).
Defined.
